(** * gargs: command generation and execution orchestration (main.go)

    A shallow embedding of [main.go]: the template compiler
    ([makeCommandTmpl]), the batch generator ([genCommands]), the command
    dispatcher ([handleCommand]) and the orchestrator ([run], [main]),
    together with models of the library calls they rely on
    ([strings.Replace], the two fixed regular expressions, a fragment of
    [text/template], [bufio.Reader.ReadString], channels and deferred
    calls). *)

From Stdlib Require Import String Ascii ZArith Lia Bool Arith List.
Import ListNotations.
Local Open Scope list_scope.

(** * Part I: the program and the library calls it relies on *)

(** Go strings are byte sequences. *)
Definition str := list ascii.

Definition bytes (s : string) : str := list_ascii_of_string s.

Definition nl : ascii := "010"%char.
Definition cr : ascii := "013"%char.
Definition lbrace : ascii := "{"%char.
Definition rbrace : ascii := "}"%char.

Definition isDigit (c : ascii) : bool :=
  let n := nat_of_ascii c in (48 <=? n) && (n <=? 57).

(** ** package strings *)
Module GoStrings.

(** [strings.HasPrefix(s, prefix)] *)
Fixpoint HasPrefix (s prefix : str) {struct prefix} : bool :=
  match prefix, s with
  | [], _ => true
  | _ :: _, [] => false
  | p :: prefix', c :: s' => Ascii.eqb p c && HasPrefix s' prefix'
  end.

End GoStrings.

(** ** Leftmost, non-overlapping replacement

    [strings.Replace(s, old, new, -1)], [Regexp.ReplaceAllString] and
    [Regexp.ReplaceAllStringFunc] walk the text from the left; at each
    position not covered by the previous match they try to match there,
    emit the replacement of the matched text and continue after it, or copy
    one byte and move on.  [matchLen s] is the length of the match that
    starts at the head of [s], if there is one; none of the patterns used
    by gargs matches the empty string. *)
Section Scan.
Variable matchLen : str -> option nat.
Variable repl : str -> str.

Fixpoint scanFrom (s : str) (skip : nat) : str :=
  match s with
  | [] => []
  | c :: t =>
    match skip with
    | S k => scanFrom t k
    | O =>
      match matchLen s with
      | Some (S n) => repl (firstn (S n) s) ++ scanFrom t n
      | _ => c :: scanFrom t 0
      end
    end
  end.

Definition replaceAll (s : str) : str := scanFrom s 0.
End Scan.

Module GoStringsReplace.
Import GoStrings.

Definition matchLiteral (old s : str) : option nat :=
  if HasPrefix s old then Some (length old) else None.

(** [strings.Replace(s, old, new, -1)] for a non-empty [old]. *)
Definition Replace (s old new : str) : str :=
  replaceAll (matchLiteral old) (fun _ => new) s.

End GoStringsReplace.

(** ** The two regular expressions that main.go compiles itself *)
Module GoRegexp.

(** The match of [\r?\n] at the head of the text. *)
Definition matchEOL (s : str) : option nat :=
  match s with
  | c :: d :: _ =>
    if Ascii.eqb c cr && Ascii.eqb d nl then Some 2
    else if Ascii.eqb c nl then Some 1 else None
  | c :: [] => if Ascii.eqb c nl then Some 1 else None
  | [] => None
  end.

(** [regexp.MustCompile(`\r?\n`).ReplaceAllString(s, repl)] for a [repl]
    without [$] references. *)
Definition ReplaceAllString_EOL (s repl : str) : str :=
  replaceAll matchEOL (fun _ => repl) s.

Fixpoint digitRun (s : str) : nat :=
  match s with
  | c :: t => if isDigit c then S (digitRun t) else 0
  | [] => 0
  end.

(** The match of [({\d+})] at the head of the text: an opening brace, the
    longest run of decimal digits (at least one), a closing brace. *)
Definition matchIndex (s : str) : option nat :=
  match s with
  | c :: t =>
    if Ascii.eqb c lbrace then
      let n := digitRun t in
      match n, nth_error t n with
      | S _, Some d => if Ascii.eqb d rbrace then Some (n + 2) else None
      | _, _ => None
      end
    else None
  | [] => None
  end.

(** [regexp.MustCompile(`({\d+})`).ReplaceAllStringFunc(s, f)] *)
Definition ReplaceAllStringFunc_Index (s : str) (f : str -> str) : str :=
  replaceAll matchIndex f s.

End GoRegexp.

(** The regular expression given with [-s] is the user's: the regexp
    package is taken as an interface. *)
Class RegexpLib := {
  Regexp : Type;
  (** [regexp.Compile]; [MustCompile] panics where it gives [None]. *)
  Compile : str -> option Regexp;
  (** [re.Split(s, -1)] *)
  Split : Regexp -> str -> list str
}.

(** ** Errors and results *)
Inductive Error :=
| IndexOutOfRange (i : Z)        (* text/template: error calling index *)
| ReadFailed (msg : str)         (* a read error other than io.EOF *)
| OpenFailed (msg : str)         (* xopen.Ropen *)
| BadNumber (text : str).        (* text/template: a constant that is no number *)

Inductive result (A : Type) :=
| Ok (a : A)
| Err (e : Error).
Arguments Ok {A} a.
Arguments Err {A} e.

(** hold the arguments for each call that fill the template. *)
Record tmplArgs := { Lines : list str; Xs : list str }.

(** ** A fragment of text/template

    The fragment covers what [makeCommandTmpl] generates: literal text and
    the two actions [{{index .Lines n}}] and [{{index .Xs n}}] with an
    integer constant [n].  [Parse] gives [None] for every other text: one
    that text/template rejects, or one that uses a part of the template
    language that is not modelled here.  [ParseError] tells the two apart
    where the model can: it gives the error of the first action that holds
    a constant text/template does not accept as a number. *)
Module GoTemplate.
Import GoStrings.

Inductive Field := FLines | FXs.

Inductive Node :=
| TextNode (text : str)
| IndexNode (f : Field) (i : Z).

Definition Template := list Node.

Definition isOctDigit (c : ascii) : bool :=
  let n := nat_of_ascii c in (48 <=? n) && (n <=? 55).

Definition digitVal (c : ascii) : Z := Z.of_nat (nat_of_ascii c) - 48.

Definition valueIn (base : Z) (ds : str) : Z :=
  fold_left (fun (acc : Z) c => (acc * base + digitVal c)%Z) ds 0%Z.

Definition int64 (v : Z) : option Z :=
  if (v <? 2 ^ 63)%Z then Some v else None.

(** The integer a run of decimal digits denotes as a template constant
    ([strconv.ParseInt(text, 0, 64)]: base 8 after a leading 0, base 10
    otherwise).  Constants that do not fit an int64, and digit runs with a
    leading 0 that are not octal, are left out of the fragment. *)
Definition parseNumber (ds : str) : option Z :=
  match ds with
  | [] => None
  | c :: rest =>
    if Ascii.eqb c "0"%char then
      if forallb isOctDigit rest then int64 (valueIn 8 rest) else None
    else if forallb isDigit ds then int64 (valueIn 10 ds) else None
  end.

Definition actionIndexLines : str := bytes "index .Lines ".
Definition actionIndexXs : str := bytes "index .Xs ".

(** The action between [{{] and [}}]. *)
Definition parseAction (a : str) : option Node :=
  if HasPrefix a actionIndexLines then
    option_map (IndexNode FLines) (parseNumber (skipn (length actionIndexLines) a))
  else if HasPrefix a actionIndexXs then
    option_map (IndexNode FXs) (parseNumber (skipn (length actionIndexXs) a))
  else None.

Inductive Item :=
| IText (text : str)
| IAction (body : str).

Definition pushText (c : ascii) (r : option (list Item)) : option (list Item) :=
  match r with
  | Some (IText s :: l) => Some (IText (c :: s) :: l)
  | Some l => Some (IText [c] :: l)
  | None => None
  end.

Definition pushAction (c : ascii) (r : option (list Item)) : option (list Item) :=
  match r with
  | Some (IAction s :: l) => Some (IAction (c :: s) :: l)
  | _ => None
  end.

Inductive Mode := InText | InAction.

(** The lexer: text up to the next [{{], then the action up to the next
    [}}]; an action left open is an error. *)
Fixpoint lex (m : Mode) (s : str) : option (list Item) :=
  match m, s with
  | InText, [] => Some []
  | InText, c :: t =>
    match t with
    | d :: t' =>
      if Ascii.eqb c lbrace && Ascii.eqb d lbrace then lex InAction t'
      else pushText c (lex InText t)
    | [] => pushText c (lex InText t)
    end
  | InAction, [] => None
  | InAction, c :: t =>
    match t with
    | d :: t' =>
      if Ascii.eqb c rbrace && Ascii.eqb d rbrace
      then option_map (cons (IAction [])) (lex InText t')
      else pushAction c (lex InAction t)
    | [] => pushAction c (lex InAction t)
    end
  end.

Fixpoint nodes (items : list Item) : option Template :=
  match items with
  | [] => Some []
  | IText s :: l => option_map (cons (TextNode s)) (nodes l)
  | IAction a :: l =>
    match parseAction a, nodes l with
    | Some n, Some t => Some (n :: t)
    | _, _ => None
    end
  end.

(** [template.New(name).Parse(text)] *)
Definition Parse (text : str) : option Template :=
  match lex InText text with
  | Some items => nodes items
  | None => None
  end.

(** A run of digits that is no constant of the template language: after a
    leading 0 the digits are read in base 8 and a digit 8 or 9 is an error
    (the text reads as a float but looks like an integer), and so is an
    integer of 2^64 or more. *)
Definition rejectedNumber (ds : str) : bool :=
  match ds with
  | [] => false
  | c :: rest =>
    forallb isDigit ds &&
    (if Ascii.eqb c "0"%char
     then negb (forallb isOctDigit rest) || (2 ^ 64 <=? valueIn 8 rest)%Z
     else (2 ^ 64 <=? valueIn 10 ds)%Z)
  end.

Definition rejectedAction (a : str) : option Error :=
  if HasPrefix a actionIndexLines then
    let ds := skipn (length actionIndexLines) a in
    if rejectedNumber ds then Some (BadNumber ds) else None
  else if HasPrefix a actionIndexXs then
    let ds := skipn (length actionIndexXs) a in
    if rejectedNumber ds then Some (BadNumber ds) else None
  else None.

(** The parser works from the left: the actions of the fragment are
    accepted, and the first action outside it decides. *)
Fixpoint firstRejected (items : list Item) : option Error :=
  match items with
  | [] => None
  | IText _ :: l => firstRejected l
  | IAction a :: l =>
    match parseAction a with
    | Some _ => firstRejected l
    | None => rejectedAction a
    end
  end.

(** The error of [template.New(name).Parse(text)], for the texts the model
    knows to be rejected. *)
Definition ParseError (text : str) : option Error :=
  match lex InText text with
  | Some items => firstRejected items
  | None => None
  end.

(** The builtin [index] on a slice of strings. *)
Definition index (l : list str) (i : Z) : option str :=
  if (i <? 0)%Z then None else nth_error l (Z.to_nat i).

Definition field (f : Field) (data : tmplArgs) : list str :=
  match f with FLines => Lines data | FXs => Xs data end.

(** [tmpl.Execute(&buf, data)]: the nodes are written to the buffer from
    left to right; the first failing action ends the execution with its
    error. *)
Fixpoint Execute (t : Template) (buf : str) (data : tmplArgs) : result str :=
  match t with
  | [] => Ok buf
  | TextNode s :: t' => Execute t' (buf ++ s) data
  | IndexNode f i :: t' =>
    match index (field f data) i with
    | Some v => Execute t' (buf ++ v) data
    | None => Err (IndexOutOfRange i)
    end
  end.

End GoTemplate.

(** ** package process (github.com/brentp/gargs/process)

    The execution engine is an external collaborator: of a finished
    command the orchestrator uses its exit code ([p.ExitCode()]) and the
    bytes it can read from it ([io.Copy(stdout, p)]). *)
Module process.
Record Command := { ExitCode : Z; Output : str }.
End process.

(** ** The program state *)

(** Params are the user-specified command-line arguments *)
Record Params := {
  Procs : Z;
  Nlines : Z;
  Command : str;
  Sep : str;
  Verbose : bool;
  ContinueOnError : bool;
  Ordered : bool;
  DryRun : bool
}.

(** A channel of [make(chan bool)] that is only ever closed. *)
Inductive Chan := ChanOpen | ChanClosed.

Record World := {
  osStdout : str;          (* bytes written to os.Stdout *)
  osStderr : str;          (* bytes written to os.Stderr with fmt.Fprint* *)
  sent : list str;         (* the commands sent on ch, oldest first *)
  chClosed : bool;         (* close(ch) *)
  ExitCode : Z;            (* the package variable ExitCode *)
  cancel : Chan;           (* run's cancel channel *)
  stdoutW : str;           (* bytes held by run's bufio.Writer on os.Stdout *)
  logged : list Error      (* the errors log.Fatal has printed on os.Stderr,
                              each as one line under the logger's time stamp *)
}.

(** ExitCode is the highest exit code seen in any command (initially 0). *)
Definition world0 : World :=
  {| osStdout := []; osStderr := []; sent := []; chClosed := false;
     ExitCode := 0; cancel := ChanOpen; stdoutW := []; logged := [] |}.

Definition writeStdout (b : str) (w : World) : World :=
  {| osStdout := osStdout w ++ b; osStderr := osStderr w; sent := sent w;
     chClosed := chClosed w; ExitCode := ExitCode w; cancel := cancel w;
     stdoutW := stdoutW w; logged := logged w |}.

Definition writeStderr (b : str) (w : World) : World :=
  {| osStdout := osStdout w; osStderr := osStderr w ++ b; sent := sent w;
     chClosed := chClosed w; ExitCode := ExitCode w; cancel := cancel w;
     stdoutW := stdoutW w; logged := logged w |}.

Definition send (cmd : str) (w : World) : World :=
  {| osStdout := osStdout w; osStderr := osStderr w; sent := sent w ++ [cmd];
     chClosed := chClosed w; ExitCode := ExitCode w; cancel := cancel w;
     stdoutW := stdoutW w; logged := logged w |}.

Definition closeCh (w : World) : World :=
  {| osStdout := osStdout w; osStderr := osStderr w; sent := sent w;
     chClosed := true; ExitCode := ExitCode w; cancel := cancel w;
     stdoutW := stdoutW w; logged := logged w |}.

Definition setExitCode (c : Z) (w : World) : World :=
  {| osStdout := osStdout w; osStderr := osStderr w; sent := sent w;
     chClosed := chClosed w; ExitCode := c; cancel := cancel w;
     stdoutW := stdoutW w; logged := logged w |}.

Definition setCancel (c : Chan) (w : World) : World :=
  {| osStdout := osStdout w; osStderr := osStderr w; sent := sent w;
     chClosed := chClosed w; ExitCode := ExitCode w; cancel := c;
     stdoutW := stdoutW w; logged := logged w |}.

Definition setStdoutW (b : str) (w : World) : World :=
  {| osStdout := osStdout w; osStderr := osStderr w; sent := sent w;
     chClosed := chClosed w; ExitCode := ExitCode w; cancel := cancel w;
     stdoutW := b; logged := logged w |}.

(** The line [log.Fatal(e)] prints on os.Stderr. *)
Definition logError (e : Error) (w : World) : World :=
  {| osStdout := osStdout w; osStderr := osStderr w; sent := sent w;
     chClosed := chClosed w; ExitCode := ExitCode w; cancel := cancel w;
     stdoutW := stdoutW w; logged := logged w ++ [e] |}.

(** ** Ways the process ends other than by returning *)
Inductive PanicValue :=
| CloseOfClosedChannel          (* close of closed channel *)
| MakesliceCapOutOfRange        (* makeslice: cap out of range *)
| RegexpMustCompile.            (* regexp.MustCompile on a bad expression *)

Inductive Halt :=
| LogFatal (e : Error)          (* log.Fatal(e): prints e, then os.Exit(1) *)
| Panicked (p : PanicValue)     (* a panic nobody recovers *)
| OsExit (code : Z)             (* os.Exit(code) *)
| OutOfMemory                   (* fatal error: runtime: out of memory *)
| Unsupported.                  (* template text outside the modelled fragment *)

(** The status the calling environment sees: [log.Fatal] exits with 1 and
    the Go runtime with 2 after an unrecovered panic or a fatal error of
    its own; of the code given to [os.Exit] the environment sees the low
    eight bits, 255 for the -1 of [p.Fail].  [None] where the model does
    not say. *)
Definition exitStatus (h : Halt) : option Z :=
  match h with
  | LogFatal _ => Some 1%Z
  | Panicked _ => Some 2%Z
  | OsExit c => Some (Z.land c 255)
  | OutOfMemory => Some 2%Z
  | Unsupported => None
  end.

Inductive Exec (A : Type) :=
| Ret (a : A) (w : World)
| Halted (h : Halt) (w : World)
| OutOfFuel.
Arguments Ret {A} a w.
Arguments Halted {A} h w.
Arguments OutOfFuel {A}.

Definition M (A : Type) := World -> Exec A.

Definition ret {A} (a : A) : M A := fun w => Ret a w.

Definition bind {A B} (m : M A) (k : A -> M B) : M B := fun w =>
  match m w with
  | Ret a w' => k a w'
  | Halted h w' => Halted h w'
  | OutOfFuel => OutOfFuel
  end.

(** What a halt leaves behind: [log.Fatal(e)] prints [e] on os.Stderr
    before it exits.  (What the Go runtime prints for an unrecovered panic
    or a fatal error of its own is told by the halt itself.) *)
Definition onHalt (h : Halt) (w : World) : World :=
  match h with
  | LogFatal e => logError e w
  | _ => w
  end.

Definition halt {A} (h : Halt) : M A := fun w => Halted h (onHalt h w).

Definition effect (f : World -> World) : M unit := fun w => Ret tt (f w).

Declare Scope go_scope.
Delimit Scope go_scope with go.
Notation "x <- m ;; k" := (bind m (fun x => k))
  (at level 61, m at next level, right associativity) : go_scope.
Notation "' p <- m ;; k" := (bind m (fun p => k))
  (at level 61, p pattern, m at next level, right associativity) : go_scope.
Notation "m ;;; k" := (bind m (fun _ => k))
  (at level 61, right associativity) : go_scope.
Local Open Scope go_scope.

(** [func check(e error)]: a non-nil error is fatal. *)
Definition check {A} (r : result A) : M A :=
  match r with
  | Ok a => ret a
  | Err e => halt (LogFatal e)
  end.

(** [func handleCommand(args *Params, cmd string, ch chan string)] *)
Definition handleCommand (args : Params) (cmd : str) : M unit :=
  (if Verbose args
   then effect (writeStderr (bytes "command: " ++ cmd ++ [nl]))
   else ret tt) ;;;
  if DryRun args
  then effect (writeStdout (cmd ++ [nl]))
  else effect (send cmd).

(** ** The input reader *)
Inductive ReadErr :=
| EOF                      (* io.EOF *)
| ReadError (msg : str).   (* any other error *)

(** A buffered reader over the input: the bytes still to be delivered and
    the error that follows them. *)
Record Reader := { pending : str; final : ReadErr }.

(** The text up to and including the first [delim], and the rest. *)
Fixpoint cut (delim : ascii) (s : str) : option (str * str) :=
  match s with
  | [] => None
  | c :: t =>
    if Ascii.eqb c delim then Some ([c], t)
    else match cut delim t with
         | Some (l, r) => Some (c :: l, r)
         | None => None
         end
  end.

(** [rdr.ReadString(delim)]: the bytes up to and including the delimiter
    with a nil error; when the input ends first, the bytes read so far and
    the error. *)
Definition ReadString (rdr : Reader) (delim : ascii) : str * option ReadErr * Reader :=
  match cut delim (pending rdr) with
  | Some (line, rest) => (line, None, {| pending := rest; final := final rdr |})
  | None => (pending rdr, Some (final rdr), {| pending := []; final := final rdr |})
  end.

(** What the process is started with: whether standard input is connected
    ([xopen.IsStdin()]), what [xopen.Ropen("-")] gives, and whether the
    runtime finds the memory for a slice of so many strings. *)
Record Env := { IsStdin : bool; Ropen : result Reader; Memory : Z -> bool }.

Definition isEmpty {A} (s : list A) : bool :=
  match s with [] => true | _ => false end.

(** ** main.go *)
Section Gargs.
Context {RE : RegexpLib}.
Import GoTemplate.

(** The text that replaces [{}]. *)
Definition linesRef : str := bytes "{{index .Lines 0}}".

(** The text that replaces a match of [({\d+})]: the match without its
    first and last byte, [match[1:len(match)-1]], in an [index .Xs]
    action. *)
Definition xsRef (match_ : str) : str :=
  bytes "{{index .Xs " ++ firstn (length match_ - 1 - 1) (skipn 1 match_) ++ bytes "}}".

(** The two replacements of [makeCommandTmpl], lines 154 to 158. *)
Definition rewritePattern (cmd : str) : str :=
  let v := GoStringsReplace.Replace cmd (bytes "{}") linesRef in
  GoRegexp.ReplaceAllStringFunc_Index v xsRef.

(** [func makeCommandTmpl(cmd string) *template.Template].  The error of
    a rewritten text that text/template rejects is fatal ([check(err)]); a
    text of which the model cannot tell ends the model's run with
    [Unsupported]. *)
Definition makeCommandTmpl (cmd : str) : M Template :=
  match Parse (rewritePattern cmd) with
  | Some tmpl => ret tmpl
  | None =>
    match ParseError (rewritePattern cmd) with
    | Some e => halt (LogFatal e)
    | None => halt Unsupported
    end
  end.

(** Line 93: every match of [re], the expression [\r?\n], is replaced by
    the empty string. *)
Definition stripEOL (line : str) : str :=
  GoRegexp.ReplaceAllString_EOL line [].

(** [err == nil || (err == io.EOF && len(line) > 0)] *)
Definition readOk (line : str) (err : option ReadErr) : bool :=
  match err with
  | None => true
  | Some EOF => negb (isEmpty line)
  | Some (ReadError _) => false
  end.

(** Lines 94 to 100 of the loop: in separator mode the line is split,
    rendered and handed on; otherwise it joins the batch. *)
Definition consumeLine (args : Params) (resep : option Regexp) (tmpl : Template)
    (line : str) (lines : list str) (buf : str) : M (list str * str) :=
  match resep with
  | Some re =>
    let toks := Split re line in
    buf' <- check (Execute tmpl buf {| Lines := [line]; Xs := toks |}) ;;
    handleCommand args buf' ;;;
    ret (lines, buf')
  | None => ret (lines ++ [line], buf)
  end.

(** Lines 107 to 111: a batch of [Nlines] lines is rendered, the batch is
    emptied and the command handed on. *)
Definition emitFullBatch (args : Params) (tmpl : Template)
    (lines : list str) (buf : str) : M (list str * str) :=
  if (Z.of_nat (length lines) =? Nlines args)%Z then
    buf' <- check (Execute tmpl buf {| Lines := lines; Xs := lines |}) ;;
    handleCommand args buf' ;;;
    ret ([], buf')
  else ret (lines, buf).

(** The [for] loop of the generator; its result is the batch left when the
    input ends.  Every turn starts with [buf.Reset()]. *)
Fixpoint genLoop (fuel : nat) (args : Params) (resep : option Regexp)
    (tmpl : Template) (rdr : Reader) (lines : list str) : M (list str) :=
  match fuel with
  | O => fun _ => OutOfFuel
  | S fuel' =>
    let buf : str := [] in
    let '(line, err, rdr') := ReadString rdr nl in
    if readOk line err then
      '(lines1, buf1) <- consumeLine args resep tmpl (stripEOL line) lines buf ;;
      '(lines2, _) <- emitFullBatch args tmpl lines1 buf1 ;;
      genLoop fuel' args resep tmpl rdr' lines2
    else
      match err with
      | Some (ReadError msg) => halt (LogFatal (ReadFailed msg))
      | _ => ret lines
      end
  end.

(** Lines 113 to 116: the batch left over is rendered and handed on. *)
Definition emitLastBatch (args : Params) (tmpl : Template) (lines : list str) : M unit :=
  if (0 <? length lines)%nat then
    cmd <- check (Execute tmpl [] {| Lines := lines; Xs := lines |}) ;;
    handleCommand args cmd
  else ret tt.

(** Every turn of the loop but the last consumes at least one byte. *)
Definition loopFuel (rdr : Reader) : nat := length (pending rdr) + 2.

(** The largest capacity [make([]string, 0, n)] accepts: the runtime
    panics when [n] strings of 16 bytes are more than the 2^48 bytes it can
    address (the figures of a 64-bit platform). *)
Definition maxSliceCap : Z := 2 ^ 44.

(** Whether the slice is allocated.  For one string, the default batch
    size, or none, the memory is taken to be there, as it is for the other
    small objects of the program; for more, the environment says. *)
Definition allocated (env : Env) (n : Z) : bool :=
  (n <=? 1)%Z || Memory env n.

(** A capacity that [make] accepts and the runtime allocates. *)
Definition sliceMade (env : Env) (n : Z) : bool :=
  (0 <=? n)%Z && (n <=? maxSliceCap)%Z && allocated env n.

(** [make([]string, 0, n)]: a negative capacity and a capacity out of
    range panic; when the memory is not there the runtime ends the process
    with a fatal error. *)
Definition makeslice (env : Env) (n : Z) : M unit :=
  if (n <? 0)%Z || (maxSliceCap <? n)%Z
  then halt (Panicked MakesliceCapOutOfRange)
  else if allocated env n then ret tt
  else halt OutOfMemory.

(** [func genCommands(args *Params, tmpl *template.Template) <-chan string].
    The goroutine is run to its end: the commands it sends are recorded in
    [sent], in order. *)
Definition genCommands (args : Params) (tmpl : Template) (env : Env) : M unit :=
  resep <- (if isEmpty (Sep args) then ret None
            else match Compile (Sep args) with
                 | Some re => ret (Some re)
                 | None => halt (Panicked RegexpMustCompile)
                 end) ;;
  rdr <- check (Ropen env) ;;
  makeslice env (Nlines args) ;;;
  lines <- genLoop (loopFuel rdr) args resep tmpl rdr [] ;;
  emitLastBatch args tmpl lines ;;;
  effect closeCh.

(** [func max(a, b int) int] *)
Definition max (a b : Z) : Z := if (a >? b)%Z then a else b.

(** [close(cancel)]: closing a closed channel panics. *)
Definition closeCancel : M unit := fun w =>
  match cancel w with
  | ChanOpen => Ret tt (setCancel ChanClosed w)
  | ChanClosed => Halted (Panicked CloseOfClosedChannel) w
  end.

(** [stdout.Flush()] *)
Definition Flush : M unit :=
  effect (fun w => setStdoutW [] (writeStdout (stdoutW w) w)).

(** [io.Copy(stdout, p)].  A writer whose buffer is empty hands the copy
    to os.Stdout, which reads from [p] itself: the bytes are written
    through.  Behind bytes that wait in the buffer the new ones wait too,
    until [Flush]; the flush the writer does by itself when its buffer is
    full is left out. *)
Definition copyOut (b : str) (w : World) : World :=
  {| osStdout := if isEmpty (stdoutW w) then osStdout w ++ b else osStdout w;
     osStderr := osStderr w; sent := sent w; chClosed := chClosed w;
     ExitCode := ExitCode w; cancel := cancel w;
     stdoutW := if isEmpty (stdoutW w) then [] else stdoutW w ++ b;
     logged := logged w |}.

Definition ioCopy (p : process.Command) : M unit :=
  effect (copyOut (process.Output p)).

(** [defer d]: the call runs when the function returns and also while it
    panics; [os.Exit], [log.Fatal] and a fatal error of the runtime leave
    without running it. *)
Definition defer {A} (d : M unit) (body : M A) : M A := fun w =>
  match body w with
  | Ret a w' =>
    match d w' with
    | Ret _ w'' => Ret a w''
    | Halted h w'' => Halted h w''
    | OutOfFuel => OutOfFuel
    end
  | Halted (Panicked p) w' =>
    match d w' with
    | Ret _ w'' => Halted (Panicked p) w''
    | Halted h w'' => Halted h w''
    | OutOfFuel => OutOfFuel
    end
  | Halted h w' => Halted h w'
  | OutOfFuel => OutOfFuel
  end.

Inductive Flow := Continue | Break.

(** The body of the loop over the results (lines 141 to 148). *)
Definition resultBody (args : Params) (p : process.Command) : M Flow :=
  let ex := process.ExitCode p in
  flow <- (if negb (ex =? 0)%Z then
             effect (fun w => setExitCode (max (ExitCode w) ex) w) ;;;
             if negb (ContinueOnError args) then
               closeCancel ;;;
               ret Break
             else ret Continue
           else ret Continue) ;;
  match flow with
  | Break => ret Break
  | Continue => ioCopy p ;;; ret Continue
  end.

(** [for p := range process.Runner(cmds, cancel)] over the results the
    engine delivers. *)
Fixpoint rangeResults (args : Params) (results : list process.Command) : M unit :=
  match results with
  | [] => ret tt
  | p :: rest =>
    flow <- resultBody args p ;;
    match flow with
    | Break => ret tt
    | Continue => rangeResults args rest
    end
  end.

(** Lines 134 to 151 of [run], given the results the engine delivers. *)
Definition drain (args : Params) (results : list process.Command) : M unit :=
  effect (setStdoutW []) ;;;
  defer Flush (
    effect (setCancel ChanOpen) ;;;
    defer closeCancel (rangeResults args results)).

(** [func run(args Params)].  [Runner] stands for [process.Runner]: the
    results it delivers for the commands it is handed.  In the program the
    generator's goroutine and the loop over the results run side by side;
    [run] is the schedule that puts the stages one after the other: the
    generator runs to its end, then the results are drained.  Where the
    generator halts after it has sent commands, or the loop cancels the
    run, other schedules let the process end earlier, with fewer commands
    sent or with results already copied; what does not depend on the
    schedule is stated of the stages, [genCommands] and [drain]. *)
Definition run (Runner : list str -> list process.Command) (args : Params) (env : Env) : M unit :=
  tmpl <- makeCommandTmpl (Command args) ;;
  genCommands args tmpl env ;;;
  fun w => drain args (Runner (sent w)) w.

(** [func main()], after [arg.MustParse] has filled [args]. *)
Definition main (Runner : list str -> list process.Command) (args : Params) (env : Env) : M unit :=
  if negb (isEmpty (Sep args)) && (Nlines args >? 1)%Z then
    halt (OsExit (-1))          (* p.Fail: the usage message, then exit *)
  else if negb (IsStdin env) then
    effect (writeStderr (bytes "ERROR: expecting input on STDIN" ++ [nl])) ;;;
    halt (OsExit 255)
  else
    run Runner args env ;;;
    fun w => Halted (OsExit (ExitCode w)) w.

End Gargs.

(** ** An instance of the regexp interface for literal expressions

    For an expression without metacharacters, [Split] cuts the text at
    every occurrence of the expression.  The instance serves the concrete
    runs below, whose separator is a comma. *)
Module LiteralRegexp.
Import GoStrings.

Definition isMeta (c : ascii) : bool :=
  existsb (Ascii.eqb c) (bytes "\.+*?()|[]{}^$").

Fixpoint splitFrom (sep s : str) (skip : nat) {struct s} : list str :=
  match s with
  | [] => [[]]
  | c :: t =>
    match skip with
    | S k => splitFrom sep t k
    | O =>
      if HasPrefix s sep then [] :: splitFrom sep t (length sep - 1)
      else match splitFrom sep t 0 with
           | f :: fs => (c :: f) :: fs
           | [] => [[c]]
           end
    end
  end.

#[export] Instance lib : RegexpLib := {|
  Regexp := str;
  Compile := fun e =>
    if isEmpty e || existsb isMeta e then None else Some e;
  Split := fun re s => splitFrom re s 0
|}.

End LiteralRegexp.

(** ** Sample runs *)
Module Samples.
Import LiteralRegexp.

Definition params (cmd : string) : Params :=
  {| Procs := 1; Nlines := 1; Command := bytes cmd; Sep := [];
     Verbose := false; ContinueOnError := false; Ordered := false;
     DryRun := false |}.

Definition withNlines (n : Z) (a : Params) : Params :=
  {| Procs := Procs a; Nlines := n; Command := Command a; Sep := Sep a;
     Verbose := Verbose a; ContinueOnError := ContinueOnError a;
     Ordered := Ordered a; DryRun := DryRun a |}.

Definition withSep (s : string) (a : Params) : Params :=
  {| Procs := Procs a; Nlines := Nlines a; Command := Command a; Sep := bytes s;
     Verbose := Verbose a; ContinueOnError := ContinueOnError a;
     Ordered := Ordered a; DryRun := DryRun a |}.

Definition withDryRun (a : Params) : Params :=
  {| Procs := Procs a; Nlines := Nlines a; Command := Command a; Sep := Sep a;
     Verbose := Verbose a; ContinueOnError := ContinueOnError a;
     Ordered := Ordered a; DryRun := true |}.


(** Standard input holding the given bytes. *)
Definition input (data : str) : Env :=
  {| IsStdin := true; Ropen := Ok {| pending := data; final := EOF |};
     Memory := fun _ => true |}.

(** An engine that runs the commands one after the other: every command
    exits with [code] and prints its own text. *)
Definition echoEngine (code : Z) (cmds : list str) : list process.Command :=
  map (fun c => {| process.ExitCode := code; process.Output := c ++ [nl] |}) cmds.

End Samples.

(** * Part II: notions used in the statements *)

(** ** Outcomes and results *)

(** The state in which a computation leaves the program. *)
Definition endWorld {A} (e : Exec A) : option World :=
  match e with
  | Ret _ w => Some w
  | Halted _ w => Some w
  | OutOfFuel => None
  end.

(** How a computation halts, if it does. *)
Definition haltOf {A} (e : Exec A) : option Halt :=
  match e with
  | Halted h _ => Some h
  | _ => None
  end.

Definition failed (p : process.Command) : bool :=
  negb (process.ExitCode p =? 0)%Z.

(** The results the orchestrator's loop receives: all that the engine
    delivers, or, when errors stop the run, those up to the first failed
    one. *)
Fixpoint observed (args : Params) (results : list process.Command) : list process.Command :=
  match results with
  | [] => []
  | p :: rest =>
    if failed p && negb (ContinueOnError args) then [p]
    else p :: observed args rest
  end.

(** The results whose output the loop copies. *)
Fixpoint copied (args : Params) (results : list process.Command) : list process.Command :=
  match results with
  | [] => []
  | p :: rest =>
    if failed p && negb (ContinueOnError args) then []
    else p :: copied args rest
  end.

(** Whether the loop is left by [break]. *)
Definition cancelled (args : Params) (results : list process.Command) : bool :=
  negb (ContinueOnError args) && existsb failed results.

Definition statuses (results : list process.Command) : list Z :=
  map process.ExitCode results.

(** The highest of the statuses, and of [floor]. *)
Definition highest (floor : Z) (l : list Z) : Z := fold_left Z.max l floor.

Definition outputs (results : list process.Command) : str :=
  concat (map process.Output results).

(** ** Lines and batches *)

(** The chunks of the input that end with a newline (newline included),
    and the bytes after the last newline. *)
Fixpoint terminated (s : str) : list str :=
  match s with
  | [] => []
  | c :: t =>
    if Ascii.eqb c nl then [c] :: terminated t
    else match terminated t with
         | [] => []
         | l :: ls => (c :: l) :: ls
         end
  end.

Fixpoint unterminated (s : str) : str :=
  match s with
  | [] => []
  | c :: t =>
    if Ascii.eqb c nl then unterminated t
    else match terminated t with
         | [] => c :: unterminated t
         | _ :: _ => unterminated t
         end
  end.

(** The lines the generator's loop works on, as it hands them to batching
    or splitting: every newline-terminated chunk and, when the input ends
    cleanly, the non-empty rest; each with its line end removed. *)
Definition inputLines (rdr : Reader) : list str :=
  map (fun l => GoRegexp.ReplaceAllString_EOL l [])
    (terminated (pending rdr) ++
     match final rdr with
     | EOF => if isEmpty (unterminated (pending rdr)) then [] else [unterminated (pending rdr)]
     | ReadError _ => []
     end).

(** How the loop ends once the lines are consumed. *)
Definition endOfInput (rdr : Reader) (lines : list str) : M (list str) :=
  match final rdr with
  | EOF => ret lines
  | ReadError msg => halt (LogFatal (ReadFailed msg))
  end.

(** The text of a newline-free line followed by a newline. *)
Definition newlineFree (l : str) : Prop := ~ In nl l.

Definition withNewlines (ls : list str) : str :=
  concat (map (fun l => l ++ [nl]) ls).

(** Without one trailing carriage return. *)
Fixpoint chompCR (l : str) : str :=
  match l with
  | [] => []
  | c :: t =>
    match t with
    | [] => if Ascii.eqb c cr then [] else [c]
    | _ :: _ => c :: chompCR t
    end
  end.


(** Cutting lines into batches of [k]: the full batches and the lines left
    over, starting with [cur] in the batch. *)
Fixpoint fill (k : nat) (ls cur : list str) : list (list str) * list str :=
  match ls with
  | [] => ([], cur)
  | l :: rest =>
    let cur' := cur ++ [l] in
    if (length cur' =? k)%nat
    then let (bs, left) := fill k rest [] in (cur' :: bs, left)
    else fill k rest cur'
  end.

Definition batchesOf (k : nat) (ls : list str) : list (list str) :=
  let (bs, left) := fill k ls [] in
  bs ++ (if isEmpty left then [] else [left]).

Section GeneratorNotions.
Context {RE : RegexpLib}.
Import GoTemplate.
Variables (args : Params) (resep : option Regexp) (tmpl : Template).

(** The body of the loop applied to the lines in turn. *)
Fixpoint feed (ls : list str) (lines : list str) : M (list str) :=
  match ls with
  | [] => ret lines
  | l :: rest =>
    '(lines1, buf1) <- consumeLine args resep tmpl l lines [] ;;
    '(lines2, _) <- emitFullBatch args tmpl lines1 buf1 ;;
    feed rest lines2
  end.

(** Handing on commands one after the other. *)
Fixpoint handAll (cmds : list str) : M unit :=
  match cmds with
  | [] => ret tt
  | c :: rest => handleCommand args c ;;; handAll rest
  end.

(** The command of a batch in count mode. *)
Definition renderBatch (b : list str) : result str :=
  Execute tmpl [] {| Lines := b; Xs := b |}.

(** The command of a line in separator mode. *)
Definition renderSplit (re : Regexp) (line : str) : result str :=
  Execute tmpl [] {| Lines := [line]; Xs := Split re line |}.

(** Rendering and handing on, until a render fails. *)
Fixpoint emitEach {A} (render : A -> result str) (items : list A) : M unit :=
  match items with
  | [] => ret tt
  | b :: rest =>
    cmd <- check (render b) ;;
    handleCommand args cmd ;;;
    emitEach render rest
  end.

End GeneratorNotions.

(** ** Notions used in the statements about the whole program *)

(** [main] gets as far as [run]. *)
Definition reachesRun (args : Params) (env : Env) : bool :=
  negb (negb (isEmpty (Sep args)) && (Nlines args >? 1)%Z) && IsStdin env.

Definition setDryRun (b : bool) (a : Params) : Params :=
  {| Procs := Procs a; Nlines := Nlines a; Command := Command a; Sep := Sep a;
     Verbose := Verbose a; ContinueOnError := ContinueOnError a;
     Ordered := Ordered a; DryRun := b |}.

(** Commands printed one per line. *)
Definition printed (cmds : list str) : str :=
  concat (map (fun c => c ++ [nl]) cmds).

(** A state of the dry run next to the state of the run that executes. *)
Definition dryOf (wd ww : World) : Prop :=
  sent wd = [] /\ osStdout wd = printed (sent ww) /\ osStdout ww = [] /\
  osStderr wd = osStderr ww /\ ExitCode wd = 0%Z /\ stdoutW wd = [] /\
  logged wd = logged ww.

Definition sim {A} (md mw : M A) : Prop :=
  forall wd ww, dryOf wd ww ->
    match md wd, mw ww with
    | Ret a wd', Ret b ww' => a = b /\ dryOf wd' ww'
    | Halted h wd', Halted h' ww' => h = h' /\ dryOf wd' ww'
    | OutOfFuel, OutOfFuel => True
    | _, _ => False
    end.

Definition total {A} (m : M A) : Prop := forall w, m w <> OutOfFuel.


(** ** The rendering of a pattern as the specification words it

    A pattern is read from the left: [{}] stands for the first element of
    Lines, [{<digits>}] for the element of Xs at the index the digits
    give, read as a decimal numeral, and every other byte for itself. *)
Module PatternSpec.
Import GoStrings GoRegexp GoTemplate.

Inductive Token :=
| TLine                    (* {} *)
| TIndex (digits : str)    (* {<digits>} *)
| TByte (c : ascii).

Fixpoint tokensFrom (s : str) (skip : nat) : list Token :=
  match s with
  | [] => []
  | c :: t =>
    match skip with
    | S k => tokensFrom t k
    | O =>
      if HasPrefix s (bytes "{}") then TLine :: tokensFrom t 1
      else match matchIndex s with
           | Some (S n) => TIndex (firstn (n - 1) t) :: tokensFrom t n
           | _ => TByte c :: tokensFrom t 0
           end
    end
  end.

Definition tokens (pattern : str) : list Token := tokensFrom pattern 0.

Definition after (buf : str) (r : result str) : result str :=
  match r with
  | Ok s => Ok (buf ++ s)
  | Err e => Err e
  end.

Definition element (l : list str) (i : Z) (rest : result str) : result str :=
  match index l i with
  | Some v => after v rest
  | None => Err (IndexOutOfRange i)
  end.

Fixpoint renderTokens (data : tmplArgs) (ts : list Token) : result str :=
  match ts with
  | [] => Ok []
  | TLine :: ts' => element (Lines data) 0 (renderTokens data ts')
  | TIndex ds :: ts' => element (Xs data) (valueIn 10 ds) (renderTokens data ts')
  | TByte c :: ts' => after [c] (renderTokens data ts')
  end.

Definition substitute (pattern : str) (data : tmplArgs) : result str :=
  renderTokens data (tokens pattern).

(** A decimal numeral without a leading zero (or 0 itself) that fits an
    int64. *)
Definition plainDecimal (ds : str) : bool :=
  match ds with
  | [] => false
  | c :: rest => (negb (Ascii.eqb c "0"%char) || isEmpty rest) && (valueIn 10 ds <? 2 ^ 63)%Z
  end.

(** Every [{<digits>}] of the pattern is such a numeral. *)
Definition plainIndices (pattern : str) : bool :=
  forallb (fun t => match t with TIndex ds => plainDecimal ds | _ => true end)
    (tokens pattern).

(** The pattern holds no [{{], the opening delimiter of template actions. *)
Fixpoint noDoubleBrace (s : str) : bool :=
  match s with
  | c :: t =>
    match t with
    | d :: _ => negb (Ascii.eqb c lbrace && Ascii.eqb d lbrace) && noDoubleBrace t
    | [] => true
    end
  | [] => true
  end.

(** A template renders what a sequence of tokens stands for. *)
Definition renders (tmpl : Template) (ts : list Token) : Prop :=
  forall buf data, Execute tmpl buf data = after buf (renderTokens data ts).

End PatternSpec.

(** ** Concrete runs *)
Module Cases.
Import Samples GoTemplate.

Definition abc : str := withNewlines [bytes "a"; bytes "b"; bytes "c"].

Definition abcReader : Reader := {| pending := abc; final := EOF |}.

(** The compiled form of [echo {}]. *)
Definition echoLine : Template := [TextNode (bytes "echo "); IndexNode FLines 0].



Definition pairs : Params := withNlines 2 (params "echo {}").

Definition pairsTwo : Params := withNlines 2 (params "echo {0} {1}").

Definition commas : Params := withSep "," (params "echo {0}-{1}").

Definition boom : process.Command :=
  {| process.ExitCode := 1; process.Output := bytes "boom" |}.

Definition eleven : tmplArgs :=
  {| Lines := [bytes "L0"; bytes "L1"];
     Xs := map bytes ["x0"; "x1"; "x2"; "x3"; "x4"; "x5"; "x6"; "x7"; "x8"; "x9"; "x10"]%string |}.

(** What a pattern renders to, through the compiled template. *)
Definition renderVia (pattern : str) (data : tmplArgs) : option (result str) :=
  option_map (fun t => Execute t [] data) (Parse (rewritePattern pattern)).

End Cases.

(** ** Notions used in the further properties *)

(** The lines verbose mode writes for the commands. *)
Definition echoed (cmds : list str) : str :=
  concat (map (fun c => bytes "command: " ++ c ++ [nl]) cmds).

(** The state after the commands [cmds] have been handed on, one after
    the other: each is echoed on os.Stderr in verbose mode, and then
    printed on os.Stdout in a dry run or sent on the channel otherwise. *)
Definition handedOn (args : Params) (cmds : list str) (w : World) : World :=
  {| osStdout := if DryRun args then osStdout w ++ printed cmds else osStdout w;
     osStderr := if Verbose args then osStderr w ++ echoed cmds else osStderr w;
     sent := if DryRun args then sent w else sent w ++ cmds;
     chClosed := chClosed w; ExitCode := ExitCode w; cancel := cancel w;
     stdoutW := stdoutW w; logged := logged w |}.

(** A computation ends in a state that satisfies [I], or halts out of
    one: the halt itself may still leave its trace. *)
Definition endsIn {A} (I : World -> Prop) (e : Exec A) : Prop :=
  match e with
  | Ret _ w' => I w'
  | Halted h w' => exists w1, I w1 /\ w' = onHalt h w1
  | OutOfFuel => True
  end.

(** A computation that keeps the invariant [I]. *)
Definition maintains {A} (I : World -> Prop) (m : M A) : Prop :=
  forall w, I w -> endsIn I (m w).



(** A text without an opening brace. *)
Definition braceFree (s : str) : bool :=
  forallb (fun c => negb (Ascii.eqb c lbrace)) s.

(** One more byte of text in front of the items of a template. *)
Definition pushT (c : ascii) (items : list GoTemplate.Item) : list GoTemplate.Item :=
  match items with
  | GoTemplate.IText s :: l => GoTemplate.IText (c :: s) :: l
  | l => GoTemplate.IText [c] :: l
  end.

Definition setVerbose (b : bool) (a : Params) : Params :=
  {| Procs := Procs a; Nlines := Nlines a; Command := Command a; Sep := Sep a;
     Verbose := b; ContinueOnError := ContinueOnError a;
     Ordered := Ordered a; DryRun := DryRun a |}.

Definition setOrdered (b : bool) (a : Params) : Params :=
  {| Procs := Procs a; Nlines := Nlines a; Command := Command a; Sep := Sep a;
     Verbose := Verbose a; ContinueOnError := ContinueOnError a;
     Ordered := b; DryRun := DryRun a |}.

(** Two states that hold the same, apart from what was written to
    os.Stderr unless [all] is set. *)
Definition agree (all : bool) (w1 w2 : World) : Prop :=
  osStdout w1 = osStdout w2 /\ sent w1 = sent w2 /\ chClosed w1 = chClosed w2 /\
  ExitCode w1 = ExitCode w2 /\ cancel w1 = cancel w2 /\ stdoutW w1 = stdoutW w2 /\
  logged w1 = logged w2 /\
  (all = true -> osStderr w1 = osStderr w2).

(** Two computations that take related states to the same result and to
    related states. *)
Definition related {A} (R : World -> World -> Prop) (m1 m2 : M A) : Prop :=
  forall w1 w2, R w1 w2 ->
    match m1 w1, m2 w2 with
    | Ret a w1', Ret b w2' => a = b /\ R w1' w2'
    | Halted h w1', Halted h' w2' => h = h' /\ R w1' w2'
    | OutOfFuel, OutOfFuel => True
    | _, _ => False
    end.

(** ** Further sample runs *)
Module Runs.
Import Samples Cases GoTemplate.


(** An input that breaks off with a read error after three lines and a
    byte. *)
Definition broken : Reader :=
  {| pending := abc ++ bytes "d"; final := ReadError (bytes "broken") |}.

Definition brokenEnv : Env :=
  {| IsStdin := true; Ropen := Ok broken; Memory := fun _ => true |}.

Definition fine : process.Command :=
  {| process.ExitCode := 0; process.Output := bytes "fine" |}.

Definition csv : str := withNewlines [bytes "a,b"; bytes "c,d"].

Definition unbatched : Params := withNlines 0 (params "echo {}").

Definition splitUnbatched : Params := withNlines 0 (withSep "," (params "echo {0}")).

(** The compiled form of [echo {0}]. *)
Definition echoFirst : Template := [TextNode (bytes "echo "); IndexNode FXs 0].

Definition negative : Params := withNlines (-1) (params "echo {}").

(** A context with nine tokens. *)
Definition nine : tmplArgs :=
  {| Lines := [bytes "L0"];
     Xs := map bytes ["x0"; "x1"; "x2"; "x3"; "x4"; "x5"; "x6"; "x7"; "x8"]%string |}.

(** A command that a signal ended: its exit status reads -1. *)
Definition lost : process.Command :=
  {| process.ExitCode := -1; process.Output := [] |}.

(** More lines per command than [make] accepts. *)
Definition oversized : Params := withNlines (2 ^ 62) (params "echo {}").

(** A batch size that [make] accepts, and an environment without the
    memory for a slice of more than a thousand strings. *)
Definition large : Params := withNlines (2 ^ 40) (params "echo {}").

Definition scarce : Env :=
  {| IsStdin := true; Ropen := Ok abcReader; Memory := fun n => (n <=? 1000)%Z |}.

End Runs.

(** * Part III: lemmas and theorems *)

(** ** Facts about leftmost replacement *)
Section ScanFacts.
Variable matchLen : str -> option nat.
Variable repl : str -> str.

Lemma scanFrom_nomatch c t :
  matchLen (c :: t) = None ->
  scanFrom matchLen repl (c :: t) 0 = c :: scanFrom matchLen repl t 0.
Proof. intros H. cbn. now rewrite H. Qed.

Lemma scanFrom_match c t n :
  matchLen (c :: t) = Some (S n) ->
  scanFrom matchLen repl (c :: t) 0 =
  repl (firstn (S n) (c :: t)) ++ scanFrom matchLen repl t n.
Proof. intros H. cbn [scanFrom]. now rewrite H. Qed.

Lemma scanFrom_skip s1 s2 :
  scanFrom matchLen repl (s1 ++ s2) (length s1) = scanFrom matchLen repl s2 0.
Proof.
  induction s1 as [|c s1 IH]; [reflexivity|]. cbn. exact IH.
Qed.

(** A match [m] at the head of the text is replaced and the scan goes on
    after it. *)
Lemma scanFrom_replace m rest :
  matchLen (m ++ rest) = Some (length m) -> m <> [] ->
  scanFrom matchLen repl (m ++ rest) 0 = repl m ++ scanFrom matchLen repl rest 0.
Proof.
  intros H Hm. destruct m as [|c m]; [easy|].
  cbn [app length] in *. rewrite (scanFrom_match c (m ++ rest) (length m) H).
  rewrite scanFrom_skip. f_equal. f_equal.
  cbn [firstn]. f_equal. rewrite firstn_app, firstn_all, Nat.sub_diag. cbn.
  now rewrite app_nil_r.
Qed.

End ScanFacts.

(** ** The orchestrator *)
Section Orchestrator.

Lemma max_Zmax a b : max a b = Z.max a b.
Proof.
  unfold max. destruct (Z.gtb_spec a b); lia.
Qed.

Lemma highest_ge floor l : (floor <= highest floor l)%Z.
Proof.
  unfold highest. revert floor.
  induction l as [|x l IH]; intros floor; simpl; [lia|].
  specialize (IH (Z.max floor x)). lia.
Qed.


Lemma highest_upper floor l x : In x l -> (x <= highest floor l)%Z.
Proof.
  revert floor. induction l as [|y l IH]; intros floor HIn; [destruct HIn|].
  destruct HIn as [->|HIn].
  - change (highest floor (x :: l)) with (highest (Z.max floor x) l).
    pose proof (highest_ge (Z.max floor x) l). lia.
  - change (highest floor (y :: l)) with (highest (Z.max floor y) l). auto.
Qed.

Lemma highest_attained floor l : highest floor l = floor \/ In (highest floor l) l.
Proof.
  revert floor. induction l as [|y l IH]; intros floor; [now left|].
  change (highest floor (y :: l)) with (highest (Z.max floor y) l).
  destruct (IH (Z.max floor y)) as [H|H].
  - rewrite H. destruct (Z.max_spec floor y) as [[_ E]|[_ E]]; rewrite E.
    + right; now left.
    + now left.
  - right; now right.
Qed.

Lemma observed_prefix args rs : exists rest, rs = observed args rs ++ rest.
Proof.
  induction rs as [|p rs [rest IH]]; simpl.
  - now exists [].
  - destruct (failed p && negb (ContinueOnError args)).
    + now exists rs.
    + exists rest. simpl. now rewrite <- IH.
Qed.


Lemma copied_all args rs :
  cancelled args rs = false -> copied args rs = rs.
Proof.
  unfold cancelled. induction rs as [|p rs IH]; simpl; [easy|].
  destruct (ContinueOnError args); simpl in *.
  - intros _. rewrite andb_false_r. f_equal. now apply IH.
  - destruct (failed p); simpl; [discriminate|]. intros H. f_equal. now apply IH.
Qed.

Lemma copied_In args rs p :
  In p (copied args rs) -> failed p = false \/ ContinueOnError args = true.
Proof.
  destruct (ContinueOnError args) eqn:C; [now right|].
  induction rs as [|q rs IH]; simpl; [easy|].
  rewrite C. destruct (failed q) eqn:Fq; simpl; [easy|].
  intros [<-|H]; auto.
Qed.

(** When the loop is left by [break], the result that caused it is the one
    after the copied ones, and the loop received nothing after it. *)
Lemma cancelled_split args rs :
  cancelled args rs = true ->
  exists p rest, failed p = true /\ rs = copied args rs ++ p :: rest /\
                 observed args rs = copied args rs ++ [p].
Proof.
  unfold cancelled. destruct (ContinueOnError args) eqn:C; simpl; [discriminate|].
  induction rs as [|q rs IH]; simpl; [discriminate|].
  rewrite C. destruct (failed q) eqn:Fq; simpl.
  - intros _. now exists q, rs.
  - intros H. destruct (IH H) as (p & rest & Fp & E1 & E2).
    exists p, rest. split; [easy|]. split; congruence.
Qed.

(** The state in which the loop over the results ends. *)
Lemma rangeResults_end args rs w :
  cancel w = ChanOpen ->
  stdoutW w = [] ->
  exists w',
    rangeResults args rs w = Ret tt w' /\
    osStdout w' = osStdout w ++ outputs (copied args rs) /\
    osStderr w' = osStderr w /\
    sent w' = sent w /\ chClosed w' = chClosed w /\
    stdoutW w' = [] /\
    cancel w' = (if cancelled args rs then ChanClosed else ChanOpen).
Proof.
  unfold cancelled, outputs. revert w.
  induction rs as [|p rs IH]; intros w Hc Hw.
  - exists w. cbn. rewrite app_nil_r. destruct (ContinueOnError args); cbn; auto 10.
  - cbn [rangeResults copied existsb map concat].
    unfold bind, resultBody, bind, failed in *.
    destruct (process.ExitCode p =? 0)%Z eqn:Ez; cbn.
    + destruct (IH (copyOut (process.Output p) w))
        as (w' & E & H1 & H2 & H3 & H4 & H5 & H7);
        [exact Hc|cbn; now rewrite Hw|].
      exists w'. rewrite E. cbn in *. rewrite Hw in H1. cbn in H1.
      repeat split; auto. now rewrite H1, app_assoc.
    + destruct (ContinueOnError args) eqn:C; cbn.
      * destruct (IH (copyOut (process.Output p)
                       (setExitCode (max (ExitCode w) (process.ExitCode p)) w)))
          as (w' & E & H1 & H2 & H3 & H4 & H5 & H7);
          [exact Hc|cbn; now rewrite Hw|].
        exists w'. cbn in *. rewrite E. rewrite Hw in H1. cbn in H1.
        repeat split; auto. now rewrite H1, app_assoc.
      * unfold closeCancel. cbn. rewrite Hc.
        eexists. split; [reflexivity|]. cbn. rewrite app_nil_r.
        repeat split; auto.
Qed.

(** The exit code the loop leaves: the highest status it has seen. *)
Lemma rangeResults_exit args rs w w' :
  (0 <= ExitCode w)%Z ->
  endWorld (rangeResults args rs w) = Some w' ->
  ExitCode w' = highest (ExitCode w) (statuses (observed args rs)).
Proof.
  unfold statuses. revert w.
  induction rs as [|p rs IH]; intros w Hz.
  - cbn. now intros [= <-].
  - cbn [rangeResults observed map].
    unfold bind, resultBody, bind, failed in *.
    destruct (process.ExitCode p =? 0)%Z eqn:Ez; cbn.
    + apply Z.eqb_eq in Ez. intros H. apply IH in H; [|exact Hz].
      rewrite H. cbn. unfold highest. cbn. f_equal. lia.
    + pose proof (max_Zmax (ExitCode w) (process.ExitCode p)) as Hm.
      destruct (ContinueOnError args) eqn:C; cbn.
      * intros H. apply IH in H; [|cbn; lia].
        rewrite H. cbn. unfold highest. cbn. now rewrite Hm.
      * unfold closeCancel. cbn. destruct (cancel w); cbn;
          intros H; injection H as <-; cbn; exact Hm.
Qed.

(** What [run] does with the results: the copied outputs reach os.Stdout
    when the writer is flushed, and the deferred [close(cancel)] panics
    when the loop has closed the channel already. *)
Lemma drain_end args rs w :
  exists w',
    drain args rs w =
      (if cancelled args rs then Halted (Panicked CloseOfClosedChannel) w' else Ret tt w') /\
    osStdout w' = osStdout w ++ outputs (copied args rs) /\
    osStderr w' = osStderr w /\ sent w' = sent w /\
    ((0 <= ExitCode w)%Z ->
     ExitCode w' = highest (ExitCode w) (statuses (observed args rs))).
Proof.
  unfold drain, bind, defer, effect.
  pose proof (rangeResults_exit args rs (setCancel ChanOpen (setStdoutW [] w))) as Hx.
  destruct (rangeResults_end args rs (setCancel ChanOpen (setStdoutW [] w)) eq_refl eq_refl)
    as (w' & E & H1 & H2 & H3 & H4 & H5 & H7).
  rewrite E in Hx. specialize (Hx w'). cbn in *. rewrite E.
  unfold closeCancel. rewrite H7.
  destruct (cancelled args rs); cbn.
  - eexists. split; [reflexivity|]. cbn. rewrite H1, H5, app_nil_r. auto.
  - eexists. split; [reflexivity|]. cbn. rewrite H1, H5, app_nil_r. auto.
Qed.


End Orchestrator.

(** ** Claims about the orchestrator *)


(** C1 (the code at the failing input).  One failed result with
    continue-on-error off: the loop closes [cancel] and is left without a
    panic; the deferred [close(cancel)] then closes the closed channel, and
    [run] ends in the panic. *)
Theorem second_close_of_cancel_panics :
  process.ExitCode Cases.boom = 1%Z /\
  ContinueOnError (Samples.params "false") = false /\
  haltOf (drain (Samples.params "false") [Cases.boom] world0)
  = Some (Panicked CloseOfClosedChannel) /\
  haltOf (rangeResults (Samples.params "false") [Cases.boom] world0) = None /\
  option_map cancel (endWorld (rangeResults (Samples.params "false") [Cases.boom] world0))
  = Some ChanClosed.
Proof.
  split; [reflexivity|]. split; [reflexivity|].
  split; [vm_compute; reflexivity|]. split; vm_compute; reflexivity.
Qed.

(** C2 (as amended).  The output of every result the loop receives that
    succeeded, or that failed while continue-on-error is set, reaches the
    output stream in full and in arrival order by the time [run] is left;
    with continue-on-error off the first failed result ends the loop and
    its output is not copied. *)
Theorem outputs_copied_until_first_failure (args : Params)
    (results : list process.Command) (w : World) :
  exists w',
    endWorld (drain args results w) = Some w' /\
    osStdout w' = osStdout w ++ outputs (copied args results) /\
    (forall p, In p (copied args results) ->
       failed p = false \/ ContinueOnError args = true) /\
    (cancelled args results = false -> copied args results = results) /\
    (cancelled args results = true ->
       exists p rest, failed p = true /\
         results = copied args results ++ p :: rest /\
         observed args results = copied args results ++ [p]).
Proof.
  destruct (drain_end args results w) as (w' & E & H1 & _).
  exists w'. split.
  - rewrite E. now destruct (cancelled args results).
  - split; [exact H1|]. split; [apply copied_In|].
    split; [apply copied_all | apply cancelled_split].
Qed.

(** C2 (the claim as stated fails).  The result that triggers the
    cancellation is received by the loop and has output; none of it is
    with the writer when the loop is left, and none of it has reached the
    output stream when [run] is left. *)
Lemma cancelling_result_output_is_dropped :
  observed (Samples.params "false") [Cases.boom] = [Cases.boom] /\
  process.Output Cases.boom = bytes "boom" /\
  option_map osStdout (endWorld (drain (Samples.params "false") [Cases.boom] world0))
  = Some [] /\
  option_map stdoutW (endWorld (rangeResults (Samples.params "false") [Cases.boom] world0))
  = Some [] /\
  bytes "boom" <> [].
Proof.
  split; [reflexivity|]. split; [reflexivity|]. split; [vm_compute; reflexivity|].
  split; [vm_compute; reflexivity|]. discriminate.
Qed.

(** ** The generator *)
Section Generator.
Context {RE : RegexpLib}.
Import GoTemplate.

Lemma cut_terminated s :
  match cut nl s with
  | Some (l, r) =>
    terminated s = l :: terminated r /\ unterminated s = unterminated r /\
    length s = length l + length r /\ l <> []
  | None => terminated s = [] /\ unterminated s = s
  end.
Proof.
  induction s as [|c t IH]; cbn; [easy|].
  destruct (Ascii.eqb c nl); [repeat split; easy|].
  destruct (cut nl t) as [[l r]|].
  - destruct IH as (E1 & E2 & E3 & _). rewrite E1. cbn.
    split; [reflexivity|]. split; [exact E2|]. split; [now rewrite E3 | discriminate].
  - destruct IH as (E1 & E2). rewrite E1, E2. easy.
Qed.

Lemma bind_assoc {A B C} (m : M A) (f : A -> M B) (g : B -> M C) w :
  bind (bind m f) g w = bind m (fun a => bind (f a) g) w.
Proof. unfold bind. now destruct (m w). Qed.

Lemma bind_ext {A B} (m : M A) (f g : A -> M B) w :
  (forall a w', f a w' = g a w') -> bind m f w = bind m g w.
Proof. intros H. unfold bind. destruct (m w); auto. Qed.

Lemma feed_app args resep tmpl l1 l2 lines w :
  feed args resep tmpl (l1 ++ l2) lines w =
  bind (feed args resep tmpl l1 lines) (feed args resep tmpl l2) w.
Proof.
  revert lines w. induction l1 as [|l l1 IH]; intros lines w; [reflexivity|].
  cbn [feed app]. rewrite bind_assoc. apply bind_ext. intros [lines1 buf1] w1.
  rewrite bind_assoc. apply bind_ext. intros [lines2 buf2] w2. apply IH.
Qed.

(** With enough fuel the loop is the loop body applied to the lines of the
    input in turn; it never runs out of fuel. *)
Lemma genLoop_feed args resep tmpl fuel rdr lines w :
  length (pending rdr) + 2 <= fuel ->
  genLoop fuel args resep tmpl rdr lines w =
  bind (feed args resep tmpl (inputLines rdr) lines) (endOfInput rdr) w.
Proof.
  revert rdr lines w. induction fuel as [|fuel IH]; intros [s fin] lines w Hf; [cbn in Hf; lia|].
  cbn [genLoop]. unfold ReadString, inputLines. cbn [pending final].
  pose proof (cut_terminated s) as Hcut.
  destruct (cut nl s) as [[l r]|].
  - destruct Hcut as (E1 & E2 & E3 & Hl).
    cbn [readOk]. rewrite E1, E2. cbn [map app feed]. fold (stripEOL l).
    rewrite bind_assoc. apply bind_ext. intros [lines1 buf1] w1.
    rewrite bind_assoc. apply bind_ext. intros [lines2 buf2] w2.
    rewrite IH.
    + reflexivity.
    + cbn [pending] in *. destruct l; [easy|]. cbn in E3. lia.
  - destruct Hcut as (E1 & E2). rewrite E1, E2. cbn [app].
    destruct fin as [|msg]; cbn [readOk].
    + destruct s as [|c s']; [reflexivity|].
      cbn [isEmpty negb map feed]. fold (stripEOL (c :: s')).
      rewrite bind_assoc. apply bind_ext. intros [lines1 buf1] w1.
      rewrite bind_assoc. apply bind_ext. intros [lines2 buf2] w2.
      destruct fuel as [|fuel']; [cbn in Hf; lia|]. reflexivity.
    + reflexivity.
Qed.

(** A slice that is made. *)
Lemma makeslice_ok env n : sliceMade env n = true -> makeslice env n = ret tt.
Proof.
  unfold sliceMade, makeslice. intros H.
  apply andb_prop in H. destruct H as [H Ha]. apply andb_prop in H. destruct H as [H1 H2].
  apply Z.leb_le in H1. apply Z.leb_le in H2.
  apply Z.ltb_ge in H1. apply Z.ltb_ge in H2. now rewrite H1, H2, Ha.
Qed.

Lemma sliceMade_range env n : sliceMade env n = true -> (0 <= n <= maxSliceCap)%Z.
Proof.
  unfold sliceMade. intros H.
  apply andb_prop in H. destruct H as [H Ha]. apply andb_prop in H. destruct H as [H1 H2].
  apply Z.leb_le in H1. apply Z.leb_le in H2. lia.
Qed.

(** No slice to speak of for a batch size of zero or one. *)
Lemma sliceMade_small env n : (n = 0 \/ n = 1)%Z -> sliceMade env n = true.
Proof. intros [-> | ->]; reflexivity. Qed.

(** [genCommands] once the separator is compiled and the input opened. *)
Lemma genCommands_loop args tmpl env rdr resep w :
  (if isEmpty (Sep args) then Some None else option_map Some (Compile (Sep args))) = Some resep ->
  Ropen env = Ok rdr ->
  sliceMade env (Nlines args) = true ->
  genCommands args tmpl env w =
  bind (feed args resep tmpl (inputLines rdr) [])
       (fun lines => bind (endOfInput rdr lines)
          (fun lines => bind (emitLastBatch args tmpl lines) (fun _ => effect closeCh))) w.
Proof.
  intros Hre Hin Hn. unfold genCommands.
  assert (E : (if isEmpty (Sep args) then ret None
               else match Compile (Sep args) with
                    | Some re => ret (Some re)
                    | None => halt (Panicked RegexpMustCompile)
                    end) = ret resep).
  { destruct (isEmpty (Sep args)); [now injection Hre as <-|].
    destruct (Compile (Sep args)); [now injection Hre as <-|discriminate]. }
  rewrite E, Hin, (makeslice_ok _ _ Hn).
  unfold bind at 1 2 3. cbn [ret check].
  unfold bind at 1. rewrite genLoop_feed by (unfold loopFuel; lia).
  unfold bind. destruct (feed args resep tmpl (inputLines rdr) [] w); reflexivity.
Qed.

Lemma emitEach_app args {A} (render : A -> result str) l1 l2 w :
  emitEach args render (l1 ++ l2) w =
  bind (emitEach args render l1) (fun _ => emitEach args render l2) w.
Proof.
  revert w. induction l1 as [|b l1 IH]; intros w; [reflexivity|].
  cbn [emitEach app]. rewrite bind_assoc. apply bind_ext. intros cmd w1.
  rewrite bind_assoc. apply bind_ext. intros [] w2. apply IH.
Qed.

(** When every item renders, the commands are handed on one by one. *)
Lemma emitEach_handAll args {A} (render : A -> result str) items cmds w :
  Forall2 (fun b c => render b = Ok c) items cmds ->
  emitEach args render items w = handAll args cmds w.
Proof.
  intros H. revert w. induction H as [|b c items cmds Hb _ IH]; intros w; [reflexivity|].
  cbn [emitEach handAll]. rewrite Hb. cbn [check]. unfold bind at 1. cbn [ret].
  apply bind_ext. intros [] w1. apply IH.
Qed.

(** The first render that fails ends the run. *)
Lemma emitEach_fatal args {A} (render : A -> result str) pre b post cmds e w :
  Forall2 (fun b c => render b = Ok c) pre cmds ->
  render b = Err e ->
  emitEach args render (pre ++ b :: post) w =
  bind (handAll args cmds) (fun _ => halt (LogFatal e)) w.
Proof.
  intros Hpre Hb. rewrite emitEach_app.
  unfold bind at 1. rewrite (emitEach_handAll args render pre cmds) by exact Hpre.
  unfold bind. destruct (handAll args cmds w); try reflexivity.
  cbn [emitEach]. rewrite Hb. reflexivity.
Qed.

(** What handing on does to the state. *)
Lemma handedOn_nil args w : handedOn args [] w = w.
Proof.
  destruct w. unfold handedOn, printed, echoed. cbn.
  destruct (DryRun args), (Verbose args); now rewrite ?app_nil_r.
Qed.

Lemma handleCommand_handedOn args cmd w :
  handleCommand args cmd w = Ret tt (handedOn args [cmd] w).
Proof.
  destruct w. unfold handleCommand, handedOn, printed, echoed, bind, effect, ret.
  destruct (Verbose args), (DryRun args); cbn; now rewrite ?app_nil_r.
Qed.

Lemma handedOn_cons args cmd cmds w :
  handedOn args cmds (handedOn args [cmd] w) = handedOn args (cmd :: cmds) w.
Proof.
  unfold handedOn. cbn [osStdout osStderr sent chClosed ExitCode cancel stdoutW logged].
  assert (P : printed (cmd :: cmds) = printed [cmd] ++ printed cmds).
  { unfold printed. cbn [map concat]. now rewrite app_nil_r. }
  assert (E : echoed (cmd :: cmds) = echoed [cmd] ++ echoed cmds).
  { unfold echoed. cbn [map concat]. now rewrite app_nil_r. }
  assert (S : sent w ++ cmd :: cmds = (sent w ++ [cmd]) ++ cmds).
  { now rewrite <- app_assoc. }
  rewrite P, E, S. destruct (DryRun args), (Verbose args); now rewrite ?app_assoc.
Qed.

Lemma handAll_handedOn args cmds w :
  handAll args cmds w = Ret tt (handedOn args cmds w).
Proof.
  revert w. induction cmds as [|c cmds IH]; intros w.
  - cbn. now rewrite handedOn_nil.
  - cbn [handAll]. unfold bind. rewrite handleCommand_handedOn, IH.
    now rewrite handedOn_cons.
Qed.

(** *** Count mode *)




(** In count mode the loop renders and hands on the full batches and
    leaves the others. *)
Lemma feed_fill args tmpl k ls cur w :
  Nlines args = Z.of_nat k ->
  feed args None tmpl ls cur w =
  bind (emitEach args (renderBatch tmpl) (fst (fill k ls cur)))
       (fun _ => ret (snd (fill k ls cur))) w.
Proof.
  intros Hn. revert cur w. induction ls as [|l ls IH]; intros cur w; [reflexivity|].
  cbn [feed fill consumeLine]. unfold bind at 1. cbn [ret].
  unfold emitFullBatch. rewrite Hn.
  destruct (Nat.eqb_spec (length (cur ++ [l])) k) as [E|E].
  - rewrite E, Z.eqb_refl. specialize (IH []).
    destruct (fill k ls []) as [bs left]. cbn [fst snd emitEach] in *.
    rewrite !bind_assoc. apply bind_ext. intros cmd w1.
    rewrite !bind_assoc. apply bind_ext. intros [] w2.
    unfold bind at 1. cbn [ret]. apply IH.
  - destruct (Z.eqb_spec (Z.of_nat (length (cur ++ [l]))) (Z.of_nat k)) as [E'|_]; [lia|].
    unfold bind at 1. cbn [ret]. apply IH.
Qed.

Lemma genCommands_count args tmpl env rdr k w :
  isEmpty (Sep args) = true ->
  Nlines args = Z.of_nat k ->
  sliceMade env (Nlines args) = true ->
  Ropen env = Ok rdr ->
  final rdr = EOF ->
  genCommands args tmpl env w =
  bind (emitEach args (renderBatch tmpl) (batchesOf k (inputLines rdr)))
       (fun _ => effect closeCh) w.
Proof.
  intros Hs Hn Hcap Hin Hfin.
  rewrite (genCommands_loop args tmpl env rdr None) by (rewrite ?Hs; auto).
  unfold batchesOf. unfold bind at 1. rewrite (feed_fill args tmpl k) by exact Hn.
  destruct (fill k (inputLines rdr) []) as [bs left]. cbn [fst snd].
  unfold bind. rewrite emitEach_app. unfold endOfInput. rewrite Hfin.
  unfold bind. destruct (emitEach args (renderBatch tmpl) bs w) as [[] w1| |]; try reflexivity.
  cbn [ret]. unfold emitLastBatch.
  destruct left as [|x left]; cbn [isEmpty length Nat.ltb Nat.leb emitEach]; [reflexivity|].
  unfold bind, renderBatch.
  destruct (check (Execute tmpl [] {| Lines := x :: left; Xs := x :: left |}) w1); try reflexivity.
  destruct (handleCommand args a w0) as [[] w2| |]; reflexivity.
Qed.

(** *** Separator mode *)

Lemma feed_split args tmpl re ls w :
  (1 <= Nlines args)%Z ->
  feed args (Some re) tmpl ls [] w =
  bind (emitEach args (renderSplit tmpl re) ls) (fun _ => ret []) w.
Proof.
  intros Hn. revert w. induction ls as [|l ls IH]; intros w; [reflexivity|].
  cbn [feed emitEach consumeLine]. fold (renderSplit tmpl re l).
  rewrite !bind_assoc. apply bind_ext. intros cmd w1.
  rewrite !bind_assoc. apply bind_ext. intros [] w2.
  unfold bind at 1. cbn [ret]. unfold emitFullBatch. cbn [length Z.of_nat].
  destruct (Z.eqb_spec 0 (Nlines args)) as [E|_]; [lia|].
  unfold bind at 1. cbn [ret]. apply IH.
Qed.

Lemma genCommands_split args tmpl env rdr re w :
  isEmpty (Sep args) = false ->
  Compile (Sep args) = Some re ->
  (1 <= Nlines args)%Z ->
  sliceMade env (Nlines args) = true ->
  Ropen env = Ok rdr ->
  final rdr = EOF ->
  genCommands args tmpl env w =
  bind (emitEach args (renderSplit tmpl re) (inputLines rdr))
       (fun _ => effect closeCh) w.
Proof.
  intros Hs Hc Hn Hcap Hin Hfin.
  rewrite (genCommands_loop args tmpl env rdr (Some re)) by (rewrite ?Hs, ?Hc; auto).
  unfold bind at 1. rewrite feed_split by lia.
  unfold endOfInput. rewrite Hfin. unfold bind.
  destruct (emitEach args (renderSplit tmpl re) (inputLines rdr) w) as [[] w1| |]; reflexivity.
Qed.

(** *** Where the generator ends *)

Lemma genCommands_count_ok args tmpl env rdr k cmds w :
  isEmpty (Sep args) = true ->
  Nlines args = Z.of_nat k ->
  sliceMade env (Nlines args) = true ->
  Ropen env = Ok rdr ->
  final rdr = EOF ->
  Forall2 (fun b c => renderBatch tmpl b = Ok c) (batchesOf k (inputLines rdr)) cmds ->
  genCommands args tmpl env w = Ret tt (closeCh (handedOn args cmds w)).
Proof.
  intros Hs Hn Hcap Hin Hfin Hall.
  rewrite (genCommands_count args tmpl env rdr k w Hs Hn Hcap Hin Hfin). unfold bind.
  rewrite (emitEach_handAll args (renderBatch tmpl) _ cmds) by exact Hall.
  now rewrite handAll_handedOn.
Qed.

Lemma genCommands_count_fatal args tmpl env rdr k pre b post cmds e w :
  isEmpty (Sep args) = true ->
  Nlines args = Z.of_nat k ->
  sliceMade env (Nlines args) = true ->
  Ropen env = Ok rdr ->
  final rdr = EOF ->
  batchesOf k (inputLines rdr) = pre ++ b :: post ->
  Forall2 (fun b c => renderBatch tmpl b = Ok c) pre cmds ->
  renderBatch tmpl b = Err e ->
  genCommands args tmpl env w = Halted (LogFatal e) (logError e (handedOn args cmds w)).
Proof.
  intros Hs Hn Hcap Hin Hfin Hbs Hpre Hb.
  rewrite (genCommands_count args tmpl env rdr k w Hs Hn Hcap Hin Hfin), Hbs.
  unfold bind at 1.
  rewrite (emitEach_fatal args (renderBatch tmpl) pre b post cmds e) by assumption.
  unfold bind. now rewrite handAll_handedOn.
Qed.

Lemma genCommands_split_ok args tmpl env rdr re cmds w :
  isEmpty (Sep args) = false ->
  Compile (Sep args) = Some re ->
  (1 <= Nlines args)%Z ->
  sliceMade env (Nlines args) = true ->
  Ropen env = Ok rdr ->
  final rdr = EOF ->
  Forall2 (fun L c => renderSplit tmpl re L = Ok c) (inputLines rdr) cmds ->
  genCommands args tmpl env w = Ret tt (closeCh (handedOn args cmds w)).
Proof.
  intros Hs Hc Hn Hcap Hin Hfin Hall.
  rewrite (genCommands_split args tmpl env rdr re w Hs Hc Hn Hcap Hin Hfin). unfold bind.
  rewrite (emitEach_handAll args (renderSplit tmpl re) _ cmds) by exact Hall.
  now rewrite handAll_handedOn.
Qed.

Lemma genCommands_split_fatal args tmpl env rdr re pre L post cmds e w :
  isEmpty (Sep args) = false ->
  Compile (Sep args) = Some re ->
  (1 <= Nlines args)%Z ->
  sliceMade env (Nlines args) = true ->
  Ropen env = Ok rdr ->
  final rdr = EOF ->
  inputLines rdr = pre ++ L :: post ->
  Forall2 (fun L c => renderSplit tmpl re L = Ok c) pre cmds ->
  renderSplit tmpl re L = Err e ->
  genCommands args tmpl env w = Halted (LogFatal e) (logError e (handedOn args cmds w)).
Proof.
  intros Hs Hc Hn Hcap Hin Hfin Hls Hpre HL.
  rewrite (genCommands_split args tmpl env rdr re w Hs Hc Hn Hcap Hin Hfin), Hls.
  unfold bind at 1.
  rewrite (emitEach_fatal args (renderSplit tmpl re) pre L post cmds e) by assumption.
  unfold bind. now rewrite handAll_handedOn.
Qed.

End Generator.

(** ** Claims about the generator *)
Section GeneratorClaims.
Context {RE : RegexpLib}.
Import GoTemplate.


End GeneratorClaims.

(** ** Line framing *)
Section Framing.
Context {RE : RegexpLib}.
Import GoTemplate.

Lemma newlineFree_cons c l :
  newlineFree (c :: l) <-> Ascii.eqb c nl = false /\ newlineFree l.
Proof.
  unfold newlineFree. cbn. rewrite Ascii.eqb_neq. intuition congruence.
Qed.

Lemma newlineFree_app l1 l2 :
  newlineFree (l1 ++ l2) <-> newlineFree l1 /\ newlineFree l2.
Proof.
  unfold newlineFree. rewrite in_app_iff. tauto.
Qed.

(** A line that ends with a newline loses the newline and one carriage
    return before it. *)
Lemma stripEOL_terminated body :
  newlineFree body -> stripEOL (body ++ [nl]) = chompCR body.
Proof.
  unfold stripEOL, GoRegexp.ReplaceAllString_EOL, replaceAll.
  induction body as [|c t IH]; intros Hfree; [reflexivity|].
  apply newlineFree_cons in Hfree. destruct Hfree as [Hc Ht].
  destruct t as [|d t'].
  - cbn. rewrite Hc. destruct (Ascii.eqb c cr); reflexivity.
  - pose proof Ht as Hd. apply newlineFree_cons in Hd. destruct Hd as [Hd _].
    cbn [app]. rewrite scanFrom_nomatch.
    + cbn [chompCR]. f_equal. exact (IH Ht).
    + cbn. now rewrite Hc, Hd, andb_false_r.
Qed.

(** A line without a newline is left as it is. *)
Lemma stripEOL_unterminated body :
  newlineFree body -> stripEOL body = body.
Proof.
  unfold stripEOL, GoRegexp.ReplaceAllString_EOL, replaceAll.
  induction body as [|c t IH]; intros Hfree; [reflexivity|].
  apply newlineFree_cons in Hfree. destruct Hfree as [Hc Ht].
  destruct t as [|d t'].
  - cbn. now rewrite Hc.
  - pose proof Ht as Hd. apply newlineFree_cons in Hd. destruct Hd as [Hd _].
    rewrite scanFrom_nomatch.
    + f_equal. exact (IH Ht).
    + cbn. now rewrite Hc, Hd, andb_false_r.
Qed.

Lemma chompCR_snoc body : chompCR (body ++ [cr]) = body.
Proof.
  induction body as [|c t IH]; [reflexivity|].
  cbn [app chompCR]. destruct (t ++ [cr]) eqn:E.
  - now destruct t.
  - now f_equal.
Qed.

Lemma chompCR_other body c :
  Ascii.eqb c cr = false -> chompCR (body ++ [c]) = body ++ [c].
Proof.
  intros Hc. induction body as [|d t IH]; cbn [app chompCR].
  - now rewrite Hc.
  - destruct (t ++ [c]) eqn:E; [now destruct t|]. now f_equal.
Qed.

Lemma cut_line body rest :
  newlineFree body -> cut nl (body ++ nl :: rest) = Some (body ++ [nl], rest).
Proof.
  induction body as [|c t IH]; intros Hfree.
  - reflexivity.
  - apply newlineFree_cons in Hfree. destruct Hfree as [Hc Ht].
    cbn. now rewrite Hc, (IH Ht).
Qed.

Lemma cut_none body : newlineFree body -> cut nl body = None.
Proof.
  induction body as [|c t IH]; intros Hfree; [reflexivity|].
  apply newlineFree_cons in Hfree. destruct Hfree as [Hc Ht].
  cbn. now rewrite Hc, (IH Ht).
Qed.

Lemma terminated_line body rest :
  newlineFree body ->
  terminated (body ++ nl :: rest) = (body ++ [nl]) :: terminated rest /\
  unterminated (body ++ nl :: rest) = unterminated rest.
Proof.
  intros Hfree. pose proof (cut_terminated (body ++ nl :: rest)) as H.
  rewrite (cut_line body rest Hfree) in H. tauto.
Qed.

Lemma terminated_none body :
  newlineFree body -> terminated body = [] /\ unterminated body = body.
Proof.
  intros Hfree. pose proof (cut_terminated body) as H.
  now rewrite (cut_none body Hfree) in H.
Qed.

Lemma terminated_withNewlines ls last :
  Forall newlineFree ls -> newlineFree last ->
  terminated (withNewlines ls ++ last) = map (fun l => l ++ [nl]) ls /\
  unterminated (withNewlines ls ++ last) = last.
Proof.
  intros Hls Hlast. unfold withNewlines.
  induction Hls as [|l ls Hl _ IH]; cbn [map concat app].
  - now apply terminated_none.
  - rewrite <- !app_assoc. cbn [app].
    destruct (terminated_line l (concat (map (fun l => l ++ [nl]) ls) ++ last) Hl) as [E1 E2].
    rewrite E1, E2. destruct IH as [I1 I2]. now rewrite I1, I2.
Qed.

(** The lines of an input made of newline-terminated lines and a last
    line without newline. *)
Lemma inputLines_withNewlines ls last :
  Forall newlineFree ls -> newlineFree last ->
  inputLines {| pending := withNewlines ls ++ last; final := EOF |} =
  map chompCR ls ++ (if isEmpty last then [] else [last]).
Proof.
  intros Hls Hlast. unfold inputLines. cbn [pending final].
  destruct (terminated_withNewlines ls last Hls Hlast) as [E1 E2].
  rewrite E1, E2, map_app, map_map. f_equal.
  - apply map_ext_in. intros l Hl. apply stripEOL_terminated.
    rewrite Forall_forall in Hls. now apply Hls.
  - destruct last; [reflexivity|]. cbn [isEmpty map]. f_equal.
    now apply stripEOL_unterminated.
Qed.

(** C10 (as amended).  A line that ends with a newline enters batching or
    splitting without the newline and without one carriage return right
    before the newline; the loop then goes on with the rest of the input.
    A last line without a newline is worked on like any other line, as it
    is: a carriage return at its end is kept. *)
Theorem line_framing (args : Params) (resep : option Regexp) (tmpl : Template) :
  (forall body, newlineFree body ->
     stripEOL (body ++ [nl]) = chompCR body /\
     stripEOL (body ++ [cr; nl]) = body /\
     stripEOL body = body) /\
  (forall fuel body rest fin lines w, newlineFree body ->
     genLoop (S fuel) args resep tmpl
       {| pending := body ++ nl :: rest; final := fin |} lines w =
     bind (consumeLine args resep tmpl (chompCR body) lines [])
       (fun '(lines1, buf1) =>
          bind (emitFullBatch args tmpl lines1 buf1)
            (fun '(lines2, _) =>
               genLoop fuel args resep tmpl
                 {| pending := rest; final := fin |} lines2)) w) /\
  (forall fuel body lines w, newlineFree body -> body <> [] ->
     genLoop (S (S fuel)) args resep tmpl
       {| pending := body; final := EOF |} lines w =
     bind (consumeLine args resep tmpl body lines [])
       (fun '(lines1, buf1) =>
          bind (emitFullBatch args tmpl lines1 buf1)
            (fun '(lines2, _) => ret lines2)) w) /\
  (forall ls last, Forall newlineFree ls -> newlineFree last ->
     inputLines {| pending := withNewlines ls ++ last; final := EOF |} =
     map chompCR ls ++ (if isEmpty last then [] else [last])).
Proof.
  split; [|split; [|split]].
  - intros body Hfree. split; [now apply stripEOL_terminated|].
    split; [|now apply stripEOL_unterminated].
    change (body ++ [cr; nl]) with (body ++ [cr] ++ [nl]). rewrite app_assoc.
    rewrite stripEOL_terminated; [apply chompCR_snoc|].
    apply newlineFree_app. split; [exact Hfree|].
    unfold newlineFree. cbn. intros [H|[]]. discriminate.
  - intros fuel body rest fin lines w Hfree.
    cbn [genLoop]. unfold ReadString. cbn [pending final].
    rewrite (cut_line body rest Hfree). cbn [readOk].
    now rewrite stripEOL_terminated.
  - intros fuel body lines w Hfree Hne.
    cbn [genLoop]. unfold ReadString. cbn [pending final].
    rewrite (cut_none body Hfree). destruct body as [|c t]; [easy|].
    cbn [readOk isEmpty negb]. rewrite stripEOL_unterminated by exact Hfree.
    apply bind_ext. intros [lines1 buf1] w1. apply bind_ext. intros [lines2 buf2] w2.
    reflexivity.
  - apply inputLines_withNewlines.
Qed.

End Framing.

(** ** Fatal errors and the whole program *)
Section Program.
Context {RE : RegexpLib}.
Import GoTemplate.

Lemma main_run Runner args env w :
  reachesRun args env = true ->
  main Runner args env w =
  bind (run Runner args env) (fun _ w' => Halted (OsExit (ExitCode w')) w') w.
Proof.
  unfold reachesRun, main. intros H. apply andb_prop in H. destruct H as [H1 H2].
  apply negb_true_iff in H1. now rewrite H1, H2.
Qed.

Lemma run_gen Runner args env tmpl w :
  Parse (rewritePattern (Command args)) = Some tmpl ->
  run Runner args env w =
  bind (genCommands args tmpl env) (fun _ w' => drain args (Runner (sent w')) w') w.
Proof.
  intros H. unfold run, makeCommandTmpl. rewrite H. reflexivity.
Qed.

(** [main] for a pattern that does not compile. *)
Lemma main_not_compiled Runner args env w :
  reachesRun args env = true ->
  Parse (rewritePattern (Command args)) = None ->
  main Runner args env w =
  halt (match ParseError (rewritePattern (Command args)) with
        | Some e => LogFatal e
        | None => Unsupported
        end) w.
Proof.
  intros Hr Hp. rewrite main_run by exact Hr. unfold bind, run, makeCommandTmpl, bind.
  rewrite Hp. now destruct (ParseError (rewritePattern (Command args))).
Qed.

(** [main] from the generator on. *)
Lemma main_after_gen Runner args env tmpl w :
  reachesRun args env = true ->
  Parse (rewritePattern (Command args)) = Some tmpl ->
  main Runner args env w =
  match genCommands args tmpl env w with
  | Ret _ w1 =>
    match drain args (Runner (sent w1)) w1 with
    | Ret _ w2 => Halted (OsExit (ExitCode w2)) w2
    | Halted h w2 => Halted h w2
    | OutOfFuel => OutOfFuel
    end
  | Halted h w1 => Halted h w1
  | OutOfFuel => OutOfFuel
  end.
Proof.
  intros Hr Hp. rewrite main_run by exact Hr. unfold bind.
  rewrite (run_gen Runner args env tmpl) by exact Hp. unfold bind.
  now destruct (genCommands args tmpl env w).
Qed.

(** A generator that halts halts the program. *)
Lemma main_gen_halted Runner args env tmpl h w w' :
  reachesRun args env = true ->
  Parse (rewritePattern (Command args)) = Some tmpl ->
  genCommands args tmpl env w = Halted h w' ->
  main Runner args env w = Halted h w'.
Proof.
  intros Hr Hp Hg. rewrite main_run by exact Hr. unfold bind.
  rewrite (run_gen Runner args env tmpl) by exact Hp. unfold bind. now rewrite Hg.
Qed.

End Program.

(** ** Dry runs *)
Section DryRun.
Context {RE : RegexpLib}.
Import GoTemplate.

Lemma sim_ret {A} (a : A) : sim (ret a) (ret a).
Proof. intros wd ww H. cbn. auto. Qed.

Lemma sim_halt {A} h : sim (@halt A h) (halt h).
Proof.
  intros wd ww (H1 & H2 & H3 & H4 & H5 & H6 & H7). split; [reflexivity|].
  destruct h; unfold dryOf; cbn; rewrite ?H7; auto 10.
Qed.

Lemma sim_bind {A B} (md mw : M A) (kd kw : A -> M B) :
  sim md mw -> (forall a, sim (kd a) (kw a)) -> sim (bind md kd) (bind mw kw).
Proof.
  intros Hm Hk wd ww H. specialize (Hm wd ww H). unfold bind.
  destruct (md wd) as [a wd'|h wd'|], (mw ww) as [b ww'|h' ww'|]; try easy.
  destruct Hm as [<- H']. now apply Hk.
Qed.

Lemma sim_check {A} (r : result A) : sim (check r) (check r).
Proof. destruct r; [apply sim_ret | apply sim_halt]. Qed.

Lemma printed_app l1 l2 : printed (l1 ++ l2) = printed l1 ++ printed l2.
Proof. unfold printed. now rewrite map_app, concat_app. Qed.

(** What the dry run prints is what the other run sends. *)
Lemma sim_handleCommand args cmd :
  DryRun args = true ->
  sim (handleCommand args cmd) (handleCommand (setDryRun false args) cmd).
Proof.
  intros Hd wd ww (H1 & H2 & H3 & H4 & H5 & H6 & H7).
  unfold handleCommand, bind, effect, ret. cbn [Verbose DryRun setDryRun]. rewrite Hd.
  assert (P : printed (sent ww ++ [cmd]) = osStdout wd ++ cmd ++ [nl]).
  { rewrite printed_app, H2. unfold printed. cbn. now rewrite app_nil_r. }
  destruct (Verbose args); (split; [reflexivity|]); unfold dryOf;
    cbn [sent osStdout osStderr ExitCode stdoutW logged writeStdout writeStderr send];
    rewrite P, H4; auto 10.
Qed.

Lemma sim_consumeLine args resep tmpl line lines buf :
  DryRun args = true ->
  sim (consumeLine args resep tmpl line lines buf)
      (consumeLine (setDryRun false args) resep tmpl line lines buf).
Proof.
  intros Hd. unfold consumeLine. destruct resep as [re|]; [|apply sim_ret].
  apply sim_bind; [apply sim_check|]. intros buf'.
  apply sim_bind; [now apply sim_handleCommand|]. intros _. apply sim_ret.
Qed.

Lemma sim_emitFullBatch args tmpl lines buf :
  DryRun args = true ->
  sim (emitFullBatch args tmpl lines buf)
      (emitFullBatch (setDryRun false args) tmpl lines buf).
Proof.
  intros Hd. unfold emitFullBatch. cbn [Nlines setDryRun].
  destruct (Z.of_nat (length lines) =? Nlines args)%Z; [|apply sim_ret].
  apply sim_bind; [apply sim_check|]. intros buf'.
  apply sim_bind; [now apply sim_handleCommand|]. intros _. apply sim_ret.
Qed.

Lemma sim_emitLastBatch args tmpl lines :
  DryRun args = true ->
  sim (emitLastBatch args tmpl lines)
      (emitLastBatch (setDryRun false args) tmpl lines).
Proof.
  intros Hd. unfold emitLastBatch.
  destruct (0 <? length lines)%nat; [|apply sim_ret].
  apply sim_bind; [apply sim_check|]. intros cmd. now apply sim_handleCommand.
Qed.

Lemma sim_genLoop args resep tmpl fuel rdr lines :
  DryRun args = true ->
  sim (genLoop fuel args resep tmpl rdr lines)
      (genLoop fuel (setDryRun false args) resep tmpl rdr lines).
Proof.
  intros Hd. revert rdr lines. induction fuel as [|fuel IH]; intros rdr lines.
  - intros wd ww _. exact I.
  - cbn [genLoop]. destruct (ReadString rdr nl) as [[line err] rdr'].
    destruct (readOk line err).
    + apply sim_bind; [now apply sim_consumeLine|]. intros [lines1 buf1].
      apply sim_bind; [now apply sim_emitFullBatch|]. intros [lines2 buf2]. apply IH.
    + destruct err as [[|msg]|]; [apply sim_ret | apply sim_halt | apply sim_ret].
Qed.

Lemma sim_genCommands args tmpl env :
  DryRun args = true ->
  sim (genCommands args tmpl env) (genCommands (setDryRun false args) tmpl env).
Proof.
  intros Hd. unfold genCommands. cbn [Sep Nlines setDryRun].
  apply sim_bind.
  { destruct (isEmpty (Sep args)); [apply sim_ret|].
    destruct (Compile (Sep args)); [apply sim_ret | apply sim_halt]. }
  intros resep. apply sim_bind; [apply sim_check|]. intros rdr.
  apply sim_bind.
  { unfold makeslice.
    destruct ((Nlines args <? 0)%Z || (maxSliceCap <? Nlines args)%Z);
      [apply sim_halt|].
    destruct (allocated env (Nlines args)); [apply sim_ret | apply sim_halt]. }
  intros _. apply sim_bind; [now apply sim_genLoop|]. intros lines.
  apply sim_bind; [now apply sim_emitLastBatch|]. intros _.
  intros wd ww (H1 & H2 & H3 & H4 & H5 & H6 & H7). cbn. unfold dryOf. cbn. auto 10.
Qed.

Lemma total_bind {A B} (m : M A) (k : A -> M B) :
  total m -> (forall a, total (k a)) -> total (bind m k).
Proof.
  intros Hm Hk w. unfold bind. specialize (Hm w).
  destruct (m w) as [a w'|h w'|]; [apply Hk | discriminate | easy].
Qed.

Lemma total_check {A} (r : result A) : total (check r).
Proof. intros w. now destruct r. Qed.

Lemma total_handleCommand args cmd : total (handleCommand args cmd).
Proof.
  intros w. unfold handleCommand, bind, effect, ret.
  now destruct (Verbose args), (DryRun args).
Qed.

Lemma total_feed args resep tmpl ls lines : total (feed args resep tmpl ls lines).
Proof.
  revert lines. induction ls as [|l ls IH]; intros lines; [easy|].
  cbn [feed]. apply total_bind.
  - unfold consumeLine. destruct resep; [|easy].
    apply total_bind; [apply total_check|]. intros buf'.
    apply total_bind; [apply total_handleCommand|]. easy.
  - intros [lines1 buf1]. apply total_bind.
    + unfold emitFullBatch. destruct (Z.of_nat (length lines1) =? Nlines args)%Z; [|easy].
      apply total_bind; [apply total_check|]. intros buf'.
      apply total_bind; [apply total_handleCommand|]. easy.
    + intros [lines2 buf2]. apply IH.
Qed.

(** The generator never runs out of fuel. *)
Lemma total_genCommands args tmpl env : total (genCommands args tmpl env).
Proof.
  unfold genCommands. apply total_bind.
  { destruct (isEmpty (Sep args)); [easy|]. now destruct (Compile (Sep args)). }
  intros resep. apply total_bind; [apply total_check|]. intros rdr.
  apply total_bind.
  { unfold makeslice.
    destruct ((Nlines args <? 0)%Z || (maxSliceCap <? Nlines args)%Z); [easy|].
    now destruct (allocated env (Nlines args)). }
  intros _. apply total_bind.
  { intros w. rewrite genLoop_feed by (unfold loopFuel; lia).
    apply total_bind; [apply total_feed|]. intros lines. unfold endOfInput.
    now destruct (final rdr). }
  intros lines. apply total_bind; [|easy].
  unfold emitLastBatch. destruct (0 <? length lines)%nat; [|easy].
  apply total_bind; [apply total_check|]. intros cmd. apply total_handleCommand.
Qed.

(** A dry run whose generator ends normally exits with status 0, with
    nothing but the generator's prints on os.Stdout. *)
Lemma main_dry_done Runner args env tmpl w1 :
  DryRun args = true -> Runner [] = [] ->
  reachesRun args env = true ->
  Parse (rewritePattern (Command args)) = Some tmpl ->
  genCommands args tmpl env world0 = Ret tt w1 ->
  sent w1 = [] -> ExitCode w1 = 0%Z ->
  exists w',
    main Runner args env world0 = Halted (OsExit 0) w' /\
    osStdout w' = osStdout w1 /\ sent w' = [].
Proof.
  intros Hd HR Hr Hp Hg Hs Hx.
  rewrite (main_after_gen Runner args env tmpl world0 Hr Hp), Hg, Hs, HR.
  destruct (drain_end args [] w1) as (w' & E & D1 & _ & D3 & D4).
  unfold cancelled in E. cbn [existsb] in E. rewrite andb_false_r in E.
  cbn in D1, D4. rewrite app_nil_r in D1. rewrite E, D4 by lia. rewrite Hx.
  exists w'. split; [reflexivity|]. split; [exact D1|]. congruence.
Qed.

(** C8 (as amended).  In a dry run nothing is sent to the execution
    boundary, whatever the input.  os.Stdout holds the commands that the
    same run without dry-run sends, one per line and in the same order,
    and the generator ends the same way in both runs: when it ends
    normally the exit status is 0, and when it halts (a render or read
    failure, for instance) the program halts with it.  In count mode and
    in separator mode, with a batch size of at least one for which the
    slice of the batch is made, os.Stdout holds the commands rendered for the
    batches, or for the lines, one per line and in order: all of them and
    the exit status is 0 when all render; those before the first batch or
    line that does not render otherwise, and the program then ends with
    log.Fatal, status 1. *)
Theorem dry_run_prints_the_commands
    (Runner : list str -> list process.Command) (args : Params) (env : Env) :
  DryRun args = true ->
  Runner [] = [] ->
  exists wd,
    endWorld (main Runner args env world0) = Some wd /\
    sent wd = [] /\
    (forall tmpl,
       reachesRun args env = true ->
       Parse (rewritePattern (Command args)) = Some tmpl ->
       exists ww,
         endWorld (genCommands (setDryRun false args) tmpl env world0) = Some ww /\
         osStdout wd = printed (sent ww) /\
         haltOf (genCommands args tmpl env world0) =
           haltOf (genCommands (setDryRun false args) tmpl env world0) /\
         (haltOf (genCommands args tmpl env world0) = None ->
            main Runner args env world0 = Halted (OsExit 0) wd) /\
         (forall h, haltOf (genCommands args tmpl env world0) = Some h ->
            main Runner args env world0 = Halted h wd)) /\
    (forall tmpl rdr k,
       reachesRun args env = true ->
       Parse (rewritePattern (Command args)) = Some tmpl ->
       isEmpty (Sep args) = true ->
       Nlines args = Z.of_nat k -> 1 <= k -> sliceMade env (Z.of_nat k) = true ->
       Ropen env = Ok rdr -> final rdr = EOF ->
       (forall cmds,
          Forall2 (fun b c => renderBatch tmpl b = Ok c) (batchesOf k (inputLines rdr)) cmds ->
          main Runner args env world0 = Halted (OsExit 0) wd /\
          osStdout wd = printed cmds) /\
       (forall pre b post cmds e,
          batchesOf k (inputLines rdr) = pre ++ b :: post ->
          Forall2 (fun b c => renderBatch tmpl b = Ok c) pre cmds ->
          renderBatch tmpl b = Err e ->
          main Runner args env world0 = Halted (LogFatal e) wd /\
          osStdout wd = printed cmds /\ logged wd = [e] /\
          exitStatus (LogFatal e) = Some 1%Z)) /\
    (forall tmpl rdr re,
       reachesRun args env = true ->
       Parse (rewritePattern (Command args)) = Some tmpl ->
       isEmpty (Sep args) = false ->
       Compile (Sep args) = Some re ->
       (1 <= Nlines args)%Z ->
       sliceMade env (Nlines args) = true ->
       Ropen env = Ok rdr -> final rdr = EOF ->
       (forall cmds,
          Forall2 (fun L c => renderSplit tmpl re L = Ok c) (inputLines rdr) cmds ->
          main Runner args env world0 = Halted (OsExit 0) wd /\
          osStdout wd = printed cmds) /\
       (forall pre L post cmds e,
          inputLines rdr = pre ++ L :: post ->
          Forall2 (fun L c => renderSplit tmpl re L = Ok c) pre cmds ->
          renderSplit tmpl re L = Err e ->
          main Runner args env world0 = Halted (LogFatal e) wd /\
          osStdout wd = printed cmds /\ logged wd = [e] /\
          exitStatus (LogFatal e) = Some 1%Z)).
Proof.
  intros Hd HR.
  destruct (reachesRun args env) eqn:Hr.
  2:{ unfold reachesRun in Hr. unfold main.
      destruct (negb (isEmpty (Sep args)) && (Nlines args >? 1)%Z).
      - eexists. split; [reflexivity|]. split; [reflexivity|].
        repeat split; discriminate.
      - cbn in Hr. rewrite Hr. eexists. split; [reflexivity|]. split; [reflexivity|].
        repeat split; discriminate. }
  destruct (Parse (rewritePattern (Command args))) as [tmpl|] eqn:Hp.
  2:{ rewrite (main_not_compiled Runner args env world0 Hr Hp).
      eexists. split; [reflexivity|]. split.
      { now destruct (ParseError (rewritePattern (Command args))). }
      repeat split; discriminate. }
  pose proof (main_after_gen Runner args env tmpl world0 Hr Hp) as Hmain.
  assert (H0 : dryOf world0 world0) by (unfold dryOf; cbn; auto 10).
  pose proof (sim_genCommands args tmpl env Hd world0 world0 H0) as Hsim.
  pose proof (total_genCommands args tmpl env world0) as Htot.
  destruct (genCommands args tmpl env world0) as [[] wg|h wg|] eqn:Eg; [| |easy].
  - destruct (genCommands (setDryRun false args) tmpl env world0) as [[] ww|h ww|] eqn:Ew;
      try easy.
    destruct Hsim as [_ (S1 & S2 & S3 & S4 & S5 & S6 & S7)].
    destruct (main_dry_done Runner args env tmpl wg Hd HR Hr Hp Eg S1 S5)
      as (w' & Em & D1 & D3).
    rewrite Em. exists w'. cbn [endWorld]. split; [reflexivity|]. split; [exact D3|].
    split; [|split].
    + intros tmpl' _ Hp'. injection Hp' as <-. rewrite Eg, Ew. exists ww.
      split; [reflexivity|]. split; [congruence|]. split; [reflexivity|].
      split; [reflexivity|discriminate].
    + intros tmpl' rdr k _ Hp' Hs Hn Hk Hcap Hin Hfin. injection Hp' as <-.
      assert (Hcap' : sliceMade env (Nlines args) = true) by (rewrite Hn; exact Hcap).
      split.
      * intros cmds Hall. split; [reflexivity|].
        rewrite (genCommands_count_ok args tmpl env rdr k cmds world0
                   Hs Hn Hcap' Hin Hfin Hall) in Eg.
        injection Eg as <-. rewrite D1. cbn. now rewrite Hd.
      * intros pre b post cmds e Hbs Hpre Hb.
        rewrite (genCommands_count_fatal args tmpl env rdr k pre b post cmds e world0
                   Hs Hn Hcap' Hin Hfin Hbs Hpre Hb) in Eg.
        discriminate Eg.
    + intros tmpl' rdr re _ Hp' Hs Hc Hn Hcap Hin Hfin. injection Hp' as <-. split.
      * intros cmds Hall. split; [reflexivity|].
        rewrite (genCommands_split_ok args tmpl env rdr re cmds world0
                   Hs Hc Hn Hcap Hin Hfin Hall) in Eg.
        injection Eg as <-. rewrite D1. cbn. now rewrite Hd.
      * intros pre L post cmds e Hls Hpre HL.
        rewrite (genCommands_split_fatal args tmpl env rdr re pre L post cmds e world0
                   Hs Hc Hn Hcap Hin Hfin Hls Hpre HL) in Eg.
        discriminate Eg.
  - destruct (genCommands (setDryRun false args) tmpl env world0) as [[] ww|h' ww|] eqn:Ew;
      try easy.
    destruct Hsim as [<- (S1 & S2 & S3 & S4 & S5 & S6 & S7)]. rewrite Hmain.
    exists wg. cbn [endWorld]. split; [reflexivity|]. split; [exact S1|].
    split; [|split].
    + intros tmpl' _ Hp'. injection Hp' as <-. rewrite Eg, Ew. exists ww.
      split; [reflexivity|]. split; [exact S2|]. split; [reflexivity|].
      split; [discriminate|]. now intros h' [= <-].
    + intros tmpl' rdr k _ Hp' Hs Hn Hk Hcap Hin Hfin. injection Hp' as <-.
      assert (Hcap' : sliceMade env (Nlines args) = true) by (rewrite Hn; exact Hcap).
      split.
      * intros cmds Hall.
        rewrite (genCommands_count_ok args tmpl env rdr k cmds world0
                   Hs Hn Hcap' Hin Hfin Hall) in Eg.
        discriminate Eg.
      * intros pre b post cmds e Hbs Hpre Hb.
        rewrite (genCommands_count_fatal args tmpl env rdr k pre b post cmds e world0
                   Hs Hn Hcap' Hin Hfin Hbs Hpre Hb) in Eg.
        injection Eg as <- <-. cbn. rewrite Hd. auto.
    + intros tmpl' rdr re _ Hp' Hs Hc Hn Hcap Hin Hfin. injection Hp' as <-. split.
      * intros cmds Hall.
        rewrite (genCommands_split_ok args tmpl env rdr re cmds world0
                   Hs Hc Hn Hcap Hin Hfin Hall) in Eg.
        discriminate Eg.
      * intros pre L post cmds e Hls Hpre HL.
        rewrite (genCommands_split_fatal args tmpl env rdr re pre L post cmds e world0
                   Hs Hc Hn Hcap Hin Hfin Hls Hpre HL) in Eg.
        injection Eg as <- <-. cbn. rewrite Hd. auto.
Qed.

End DryRun.

(** ** The template compiler *)
Section Compiler.
Import GoStrings GoStringsReplace GoRegexp GoTemplate PatternSpec.

Local Notation "'pass1'" := (scanFrom (matchLiteral (bytes "{}")) (fun _ => linesRef)).
Local Notation "'pass2'" := (scanFrom matchIndex xsRef).

Lemma digit_not_lbrace c : isDigit c = true -> Ascii.eqb c lbrace = false.
Proof.
  intros H. destruct (Ascii.eqb_spec c lbrace) as [->|]; [discriminate H|reflexivity].
Qed.

Lemma digit_not_rbrace c : isDigit c = true -> Ascii.eqb c rbrace = false.
Proof.
  intros H. destruct (Ascii.eqb_spec c rbrace) as [->|]; [discriminate H|reflexivity].
Qed.

Lemma eqb_lbrace_sym c : Ascii.eqb lbrace c = Ascii.eqb c lbrace.
Proof. apply Ascii.eqb_sym. Qed.

(** The shape of a text that starts with a match of the index expression. *)
Lemma matchIndex_Some s k :
  matchIndex s = Some k ->
  exists ds r, s = lbrace :: ds ++ rbrace :: r /\ ds <> [] /\
               forallb isDigit ds = true /\ k = length ds + 2.
Proof.
  unfold matchIndex. destruct s as [|c t]; [discriminate|].
  destruct (Ascii.eqb_spec c lbrace) as [->|]; [|discriminate].
  assert (Hrun : forall t, exists ds r, t = ds ++ r /\ forallb isDigit ds = true /\
                                   length ds = digitRun t).
  { clear. induction t as [|c t (ds & r & E & F & L)]; [now exists [], []|].
    cbn. destruct (isDigit c) eqn:D.
    - exists (c :: ds), r. cbn. rewrite D, <- E. auto.
    - now exists [], (c :: t). }
  destruct (Hrun t) as (ds & r & E & F & L). rewrite <- L.
  destruct (length ds) as [|n] eqn:Len; [discriminate|].
  rewrite E, nth_error_app2, <- Len, Nat.sub_diag by lia.
  destruct r as [|d r]; [discriminate|]. cbn.
  destruct (Ascii.eqb_spec d rbrace) as [->|]; [|discriminate].
  intros [= <-]. exists ds, r. repeat split; auto. now destruct ds.
Qed.

Lemma digitRun_digits ds r :
  forallb isDigit ds = true -> digitRun (ds ++ r) = length ds + digitRun r.
Proof.
  induction ds as [|c ds IH]; [reflexivity|]. cbn. intros H.
  apply andb_prop in H. destruct H as [Hc Hds]. now rewrite Hc, IH.
Qed.

Lemma matchIndex_token ds r :
  ds <> [] -> forallb isDigit ds = true ->
  matchIndex (lbrace :: ds ++ rbrace :: r) = Some (length ds + 2).
Proof.
  intros Hne Hds. unfold matchIndex. cbn [Ascii.eqb]. rewrite Ascii.eqb_refl.
  rewrite digitRun_digits by exact Hds. cbn [digitRun]. rewrite Nat.add_0_r.
  destruct (length ds) as [|n] eqn:Len; [now destruct ds|].
  rewrite nth_error_app2, <- Len, Nat.sub_diag by lia. cbn. reflexivity.
Qed.

(** *** The first pass: [{}] becomes a reference to the first line *)

Lemma pass1_line r :
  pass1 (lbrace :: rbrace :: r) 0 = linesRef ++ pass1 r 0.
Proof.
  rewrite (scanFrom_match _ _ lbrace (rbrace :: r) 1); [|reflexivity].
  f_equal.
Qed.

Lemma pass1_byte c r :
  HasPrefix (c :: r) (bytes "{}") = false ->
  pass1 (c :: r) 0 = c :: pass1 r 0.
Proof.
  intros H. apply scanFrom_nomatch. unfold matchLiteral. now rewrite H.
Qed.

Lemma HasPrefix_braces c r :
  HasPrefix (c :: r) (bytes "{}") = true ->
  c = lbrace /\ exists r', r = rbrace :: r'.
Proof.
  cbn [bytes list_ascii_of_string HasPrefix].
  destruct (Ascii.eqb_spec "{"%char c) as [<-|]; [|discriminate].
  destruct r as [|d r']; [discriminate|].
  destruct (Ascii.eqb_spec "}"%char d) as [<-|]; [|discriminate].
  intros _. split; [reflexivity|]. now exists r'.
Qed.

Lemma hd_pass1 s : hd_error (pass1 s 0) = hd_error s.
Proof.
  destruct s as [|c r]; [reflexivity|].
  destruct (HasPrefix (c :: r) (bytes "{}")) eqn:H.
  - apply HasPrefix_braces in H. destruct H as (-> & r' & ->). reflexivity.
  - now rewrite pass1_byte.
Qed.

Lemma digitRun_pass1 r :
  digitRun (pass1 r 0) = digitRun r /\
  nth_error (pass1 r 0) (digitRun r) = nth_error r (digitRun r).
Proof.
  induction r as [|c r [IH1 IH2]]; [now split|].
  cbn [digitRun]. destruct (isDigit c) eqn:D.
  - rewrite pass1_byte.
    + cbn [digitRun nth_error]. now rewrite D, IH1.
    + cbn [bytes list_ascii_of_string HasPrefix]. rewrite eqb_lbrace_sym.
      now rewrite (digit_not_lbrace c D).
  - pose proof (hd_pass1 (c :: r)) as H. cbn [hd_error] in H.
    destruct (pass1 (c :: r) 0) as [|c' r']; [discriminate|].
    injection H as ->. cbn [digitRun nth_error]. now rewrite D.
Qed.

Lemma matchIndex_pass1 c r :
  matchIndex (c :: pass1 r 0) = matchIndex (c :: r).
Proof.
  unfold matchIndex. cbv zeta. destruct (digitRun_pass1 r) as [E1 E2]. rewrite E1.
  destruct (digitRun r); [reflexivity|]. now rewrite E2.
Qed.

(** *** The second pass: [{<digits>}] becomes a reference into Xs *)

Lemma pass2_linesRef x : pass2 (linesRef ++ x) 0 = linesRef ++ pass2 x 0.
Proof. reflexivity. Qed.

Lemma xsRef_token ds :
  xsRef (lbrace :: ds ++ [rbrace]) = bytes "{{index .Xs " ++ ds ++ bytes "}}".
Proof.
  unfold xsRef. cbn [length skipn]. rewrite length_app. cbn [length].
  replace (S (length ds + 1) - 1 - 1) with (length ds) by lia.
  now rewrite firstn_app, firstn_all, Nat.sub_diag, app_nil_r.
Qed.

Lemma pass2_token ds x :
  ds <> [] -> forallb isDigit ds = true ->
  pass2 (lbrace :: ds ++ rbrace :: x) 0 =
  (bytes "{{index .Xs " ++ ds ++ bytes "}}") ++ pass2 x 0.
Proof.
  intros Hne Hds.
  change (lbrace :: ds ++ rbrace :: x) with ((lbrace :: ds) ++ [rbrace] ++ x).
  rewrite app_assoc. rewrite scanFrom_replace.
  - cbn [app]. now rewrite xsRef_token.
  - rewrite <- app_assoc. cbn [app]. rewrite matchIndex_token by assumption.
    f_equal. cbn [length]. rewrite length_app. cbn. lia.
  - discriminate.
Qed.

Lemma pass2_byte c x :
  matchIndex (c :: x) = None -> pass2 (c :: x) 0 = c :: pass2 x 0.
Proof. apply scanFrom_nomatch. Qed.

Lemma hd_pass2 s : hd_error (pass2 s 0) = hd_error s.
Proof.
  destruct s as [|c r]; [reflexivity|].
  destruct (matchIndex (c :: r)) as [k|] eqn:H.
  - apply matchIndex_Some in H. destruct H as (ds & r' & E & Hne & Hds & _).
    rewrite E. now rewrite pass2_token.
  - now rewrite pass2_byte.
Qed.

(** *** The lexer on the rewritten pattern *)

Lemma lex_linesRef y :
  lex InText (linesRef ++ y) =
  option_map (cons (IAction (bytes "index .Lines 0"))) (lex InText y).
Proof.
  cbn. now destruct (lex InText y).
Qed.

Lemma lex_action_digits ds y :
  forallb isDigit ds = true ->
  lex InAction (ds ++ rbrace :: rbrace :: y) =
  option_map (cons (IAction ds)) (lex InText y).
Proof.
  induction ds as [|c ds IH]; intros Hds; [reflexivity|].
  cbn [forallb] in Hds. apply andb_prop in Hds. destruct Hds as [Hc Hds].
  specialize (IH Hds). cbn [app lex].
  destruct (ds ++ rbrace :: rbrace :: y) as [|d t'] eqn:E; [now destruct ds|].
  rewrite (digit_not_rbrace c Hc). cbn [andb]. rewrite IH.
  now destruct (lex InText y).
Qed.

Lemma lex_xsRef ds y :
  ds <> [] -> forallb isDigit ds = true ->
  lex InText ((bytes "{{index .Xs " ++ ds ++ bytes "}}") ++ y) =
  option_map (cons (IAction (bytes "index .Xs " ++ ds))) (lex InText y).
Proof.
  intros Hne Hds. rewrite <- !app_assoc.
  change (bytes "}}" ++ y) with (rbrace :: rbrace :: y).
  pose proof (lex_action_digits ds y Hds) as H.
  destruct ds as [|d ds']; [easy|]. cbn [app] in *.
  cbn [bytes list_ascii_of_string app lex Ascii.eqb lbrace rbrace Bool.eqb andb].
  cbn [lex] in H. rewrite H. now destruct (lex InText y).
Qed.

Lemma lex_byte c y :
  (c = lbrace -> hd_error y <> Some lbrace) ->
  lex InText (c :: y) = pushText c (lex InText y).
Proof.
  intros H. destruct y as [|d y']; [reflexivity|]. cbn [lex].
  destruct (Ascii.eqb_spec c lbrace) as [->|]; [|reflexivity].
  destruct (Ascii.eqb_spec d lbrace) as [->|]; [|reflexivity].
  now destruct (H eq_refl).
Qed.

(** *** Templates and what they render *)

Lemma after_after buf v r : after buf (after v r) = after (buf ++ v) r.
Proof. destruct r; cbn; [now rewrite app_assoc | reflexivity]. Qed.

Lemma Execute_text s t buf data :
  Execute (TextNode s :: t) buf data = Execute t (buf ++ s) data.
Proof. reflexivity. Qed.

Lemma renders_text c items tmpl ts :
  nodes items = Some tmpl -> renders tmpl ts ->
  exists items' tmpl',
    pushText c (Some items) = Some items' /\ nodes items' = Some tmpl' /\
    renders tmpl' (TByte c :: ts).
Proof.
  intros Hn Hr. unfold renders in *.
  destruct items as [|[s|a] l]; cbn [pushText].
  - exists [IText [c]], [TextNode [c]]. injection Hn as <-.
    split; [reflexivity|]. split; [reflexivity|].
    intros buf data. rewrite Execute_text, Hr. cbn [renderTokens].
    apply eq_sym, after_after.
  - cbn [nodes] in Hn. destruct (nodes l) as [t|] eqn:El; [|discriminate].
    injection Hn as <-. exists (IText (c :: s) :: l), (TextNode (c :: s) :: t).
    split; [reflexivity|]. split; [cbn; now rewrite El|].
    intros buf data. rewrite Execute_text. cbn [renderTokens].
    specialize (Hr (buf ++ [c]) data). rewrite Execute_text in Hr.
    rewrite <- app_assoc in Hr. cbn [app] in Hr. rewrite Hr. apply eq_sym, after_after.
  - exists (IText [c] :: IAction a :: l), (TextNode [c] :: tmpl).
    split; [reflexivity|]. split; [cbn [nodes option_map] in *; now rewrite Hn|].
    intros buf data. rewrite Execute_text, Hr. cbn [renderTokens].
    apply eq_sym, after_after.
Qed.

Lemma renders_index f i ts tmpl :
  renders tmpl ts ->
  forall buf data,
    Execute (IndexNode f i :: tmpl) buf data =
    after buf (element (field f data) i (renderTokens data ts)).
Proof.
  intros Hr buf data. cbn [Execute]. unfold element.
  destruct (index (field f data) i) as [v|]; [|reflexivity].
  rewrite Hr. apply eq_sym, after_after.
Qed.

Lemma parseNumber_plain ds :
  forallb isDigit ds = true -> plainDecimal ds = true ->
  parseNumber ds = Some (valueIn 10 ds).
Proof.
  intros Hds Hp. unfold plainDecimal in Hp. unfold parseNumber.
  destruct ds as [|c rest]; [discriminate|].
  apply andb_prop in Hp. destruct Hp as [Hz Hv]. unfold int64.
  destruct (Ascii.eqb c "0"%char) eqn:E0.
  - cbn in Hz. destruct rest; [|discriminate].
    apply Ascii.eqb_eq in E0. subst c. reflexivity.
  - now rewrite Hds, Hv.
Qed.

Lemma parseAction_lines :
  parseAction (bytes "index .Lines 0") = Some (IndexNode FLines 0).
Proof. reflexivity. Qed.

Lemma parseAction_xs ds :
  forallb isDigit ds = true -> plainDecimal ds = true ->
  parseAction (bytes "index .Xs " ++ ds) = Some (IndexNode FXs (valueIn 10 ds)).
Proof.
  intros Hds Hp. unfold parseAction.
  change (HasPrefix (bytes "index .Xs " ++ ds) actionIndexLines) with false.
  change (HasPrefix (bytes "index .Xs " ++ ds) actionIndexXs) with true.
  cbn iota. change (skipn (length actionIndexXs) (bytes "index .Xs " ++ ds)) with ds.
  now rewrite parseNumber_plain.
Qed.

(** *** The pattern read as the specification reads it *)

Lemma tokensFrom_skip s1 s2 : tokensFrom (s1 ++ s2) (length s1) = tokens s2.
Proof. induction s1 as [|c s1 IH]; [reflexivity|]. exact IH. Qed.

Lemma tokens_line r : tokens (lbrace :: rbrace :: r) = TLine :: tokens r.
Proof. reflexivity. Qed.

Lemma HasPrefix_token ds r :
  ds <> [] -> forallb isDigit ds = true ->
  HasPrefix (lbrace :: ds ++ rbrace :: r) (bytes "{}") = false.
Proof.
  intros Hne Hds. destruct ds as [|d ds']; [easy|].
  cbn in Hds. apply andb_prop in Hds. destruct Hds as [Hd _].
  cbn [bytes list_ascii_of_string HasPrefix app].
  change "}"%char with rbrace. rewrite (Ascii.eqb_sym rbrace d), (digit_not_rbrace d Hd).
  now rewrite andb_false_r.
Qed.

Lemma tokens_index ds r :
  ds <> [] -> forallb isDigit ds = true ->
  tokens (lbrace :: ds ++ rbrace :: r) = TIndex ds :: tokens r.
Proof.
  intros Hne Hds. unfold tokens. cbn [tokensFrom].
  rewrite HasPrefix_token, matchIndex_token by assumption.
  replace (length ds + 2) with (S (length ds + 1)) by lia.
  replace (length ds + 1 - 1) with (length ds) by lia.
  rewrite firstn_app, firstn_all, Nat.sub_diag. cbn [firstn]. rewrite app_nil_r.
  f_equal.
  change (ds ++ rbrace :: r) with (ds ++ [rbrace] ++ r). rewrite app_assoc.
  replace (length ds + 1) with (length (ds ++ [rbrace])) by (rewrite length_app; reflexivity).
  apply tokensFrom_skip.
Qed.

Lemma tokens_byte c r :
  HasPrefix (c :: r) (bytes "{}") = false -> matchIndex (c :: r) = None ->
  tokens (c :: r) = TByte c :: tokens r.
Proof.
  intros H1 H2. unfold tokens. cbn [tokensFrom]. now rewrite H1, H2.
Qed.

Lemma noDoubleBrace_tail c r : noDoubleBrace (c :: r) = true -> noDoubleBrace r = true.
Proof.
  cbn [noDoubleBrace]. destruct r as [|d r']; [reflexivity|].
  intros H. now apply andb_prop in H.
Qed.

Lemma noDoubleBrace_suffix s1 s2 : noDoubleBrace (s1 ++ s2) = true -> noDoubleBrace s2 = true.
Proof.
  induction s1 as [|c s1 IH]; [easy|]. intros H. apply IH.
  now apply (noDoubleBrace_tail c).
Qed.

Lemma noDoubleBrace_head r :
  noDoubleBrace (lbrace :: r) = true -> hd_error r <> Some lbrace.
Proof.
  destruct r as [|d r']; [discriminate|]. cbn [noDoubleBrace hd_error].
  intros H [= ->]. discriminate H.
Qed.

Lemma pass1_digits ds x :
  forallb isDigit ds = true -> pass1 (ds ++ x) 0 = ds ++ pass1 x 0.
Proof.
  induction ds as [|c ds IH]; [reflexivity|]. intros Hds.
  cbn [forallb] in Hds. apply andb_prop in Hds. destruct Hds as [Hc Hds].
  cbn [app]. rewrite pass1_byte, (IH Hds); [reflexivity|].
  cbn [bytes list_ascii_of_string HasPrefix]. change "{"%char with lbrace.
  now rewrite (Ascii.eqb_sym lbrace c), (digit_not_lbrace c Hc).
Qed.

(** The compiled template of a pattern without [{{] whose indices are
    plain decimals renders what the pattern's tokens stand for. *)
Lemma compile_renders n cmd :
  length cmd <= n ->
  noDoubleBrace cmd = true -> plainIndices cmd = true ->
  exists items tmpl,
    lex InText (pass2 (pass1 cmd 0) 0) = Some items /\
    nodes items = Some tmpl /\ renders tmpl (tokens cmd).
Proof.
  revert cmd. induction n as [|n IH]; intros cmd Hlen Hnb Hpl.
  { destruct cmd; [|cbn in Hlen; lia]. exists [], []. split; [reflexivity|].
    split; [reflexivity|]. intros buf data. cbn. now rewrite app_nil_r. }
  destruct cmd as [|c r].
  { exists [], []. split; [reflexivity|]. split; [reflexivity|].
    intros buf data. cbn. now rewrite app_nil_r. }
  cbn [length] in Hlen. unfold plainIndices in Hpl.
  destruct (HasPrefix (c :: r) (bytes "{}")) eqn:HP.
  - (* {} *)
    apply HasPrefix_braces in HP. destruct HP as (-> & r' & ->).
    rewrite tokens_line in *. cbn [forallb] in Hpl.
    destruct (IH r') as (items & tmpl & L & N & R).
    { cbn [length] in Hlen. lia. }
    { now apply (noDoubleBrace_suffix [lbrace; rbrace]). }
    { exact Hpl. }
    rewrite pass1_line, pass2_linesRef, lex_linesRef, L. cbn [option_map].
    exists (IAction (bytes "index .Lines 0") :: items), (IndexNode FLines 0 :: tmpl).
    split; [reflexivity|]. split.
    + cbn [nodes]. now rewrite parseAction_lines, N.
    + intros buf data. now rewrite (renders_index FLines 0 (tokens r')).
  - destruct (matchIndex (c :: r)) as [k|] eqn:MI.
    + (* {digits} *)
      pose proof MI as MS. apply matchIndex_Some in MS.
      destruct MS as (ds & r' & E & Hne & Hds & _).
      injection E as -> ->.
      rewrite tokens_index in * by assumption. cbn [forallb] in Hpl.
      apply andb_prop in Hpl. destruct Hpl as [Hplain Hpl].
      destruct (IH r') as (items & tmpl & L & N & R).
      { rewrite length_app in Hlen. cbn [length] in Hlen. lia. }
      { now apply (noDoubleBrace_suffix (lbrace :: ds ++ [rbrace])); rewrite <- app_comm_cons, <- app_assoc. }
      { exact Hpl. }
      rewrite pass1_byte by exact HP. rewrite pass1_digits by exact Hds.
      rewrite (pass1_byte rbrace r') by reflexivity.
      rewrite pass2_token by assumption. rewrite lex_xsRef by assumption.
      rewrite L. cbn [option_map].
      exists (IAction (bytes "index .Xs " ++ ds) :: items),
             (IndexNode FXs (valueIn 10 ds) :: tmpl).
      split; [reflexivity|]. split.
      * cbn [nodes]. now rewrite parseAction_xs, N.
      * intros buf data. now rewrite (renders_index FXs (valueIn 10 ds) (tokens r')).
    + (* any other byte *)
      rewrite tokens_byte in * by assumption. cbn [forallb] in Hpl.
      destruct (IH r) as (items & tmpl & L & N & R).
      { lia. }
      { now apply (noDoubleBrace_tail c). }
      { exact Hpl. }
      rewrite pass1_byte by exact HP.
      rewrite pass2_byte by (now rewrite matchIndex_pass1).
      rewrite lex_byte.
      * rewrite L.
        destruct (renders_text c items tmpl (tokens r) N R) as (items' & tmpl' & P & N' & R').
        exists items', tmpl'. auto.
      * intros ->. rewrite hd_pass2, hd_pass1. now apply noDoubleBrace_head.
Qed.

Lemma compile_parse cmd :
  noDoubleBrace cmd = true -> plainIndices cmd = true ->
  exists tmpl, Parse (rewritePattern cmd) = Some tmpl /\ renders tmpl (tokens cmd).
Proof.
  intros Hnb Hpl.
  destruct (compile_renders (length cmd) cmd (le_n _) Hnb Hpl) as (items & tmpl & L & N & R).
  exists tmpl. split; [|exact R].
  unfold Parse, rewritePattern, GoStringsReplace.Replace,
    GoRegexp.ReplaceAllStringFunc_Index, replaceAll. now rewrite L.
Qed.

Lemma after_nil (r : result str) : after [] r = r.
Proof. now destruct r. Qed.

(** What the generator renders for a batch and for a line is what the
    pattern's tokens stand for. *)
Lemma renderBatch_substitute cmd tmpl b :
  renders tmpl (tokens cmd) ->
  renderBatch tmpl b = substitute cmd {| Lines := b; Xs := b |}.
Proof. intros R. unfold renderBatch, substitute. now rewrite R, after_nil. Qed.





End Compiler.

(** ** Claims about the template compiler *)

(** C6 (as amended).  For every command pattern that holds no [{{] and
    whose [{<digits>}] tokens are plain decimal numerals (no leading zero,
    below 2^63), the pattern compiles, and the compiled template renders
    every [{}] as the first element of Lines, every [{<digits>}] as the
    element of Xs at the index the digits give, and every other byte as
    itself; the indices are not checked when the pattern is compiled, and
    the render fails at the first index that is out of range. *)
Theorem compiled_template_substitutes (cmd : str) :
  PatternSpec.noDoubleBrace cmd = true ->
  PatternSpec.plainIndices cmd = true ->
  exists tmpl,
    GoTemplate.Parse (rewritePattern cmd) = Some tmpl /\
    (forall w, makeCommandTmpl cmd w = Ret tmpl w) /\
    (forall data buf,
       GoTemplate.Execute tmpl buf data =
       PatternSpec.after buf (PatternSpec.substitute cmd data)).
Proof.
  intros Hnb Hpl.
  destruct (compile_renders (length cmd) cmd (le_n _) Hnb Hpl) as (items & tmpl & L & N & R).
  assert (HP : GoTemplate.Parse (rewritePattern cmd) = Some tmpl).
  { unfold GoTemplate.Parse, rewritePattern, GoStringsReplace.Replace,
      GoRegexp.ReplaceAllStringFunc_Index, replaceAll. now rewrite L. }
  exists tmpl. split; [exact HP|]. split.
  - intros w. unfold makeCommandTmpl. now rewrite HP.
  - intros data buf. apply R.
Qed.

(** ** Claims about the generator with a compiled pattern *)
Section PatternClaims.
Context {RE : RegexpLib}.
Import GoTemplate PatternSpec.



End PatternClaims.

(** ** The exit status when the run is not cancelled *)
Section ExitStatus.
Context {RE : RegexpLib}.
Import GoTemplate.









End ExitStatus.

Section ConcreteRuns.
Import Samples Cases Runs GoTemplate PatternSpec.
Existing Instance LiteralRegexp.lib.

(** C3 (the code at the failing input).  Two lines, the command [false]
    exits with 1 and continue-on-error is off: the highest exit status seen
    is 1, but the program ends in the panic of the second
    [close(cancel)], which the Go runtime reports with status 2, and
    [os.Exit(ExitCode)] is not reached. *)
Theorem exit_status_after_cancellation_is_the_panic :
  haltOf (main (echoEngine 1) (params "false")
            (input (withNewlines [bytes "a"; bytes "b"])) world0)
  = Some (Panicked CloseOfClosedChannel) /\
  exitStatus (Panicked CloseOfClosedChannel) = Some 2%Z /\
  option_map ExitCode
    (endWorld (main (echoEngine 1) (params "false")
                 (input (withNewlines [bytes "a"; bytes "b"])) world0))
  = Some 1%Z.
Proof.
  split; [vm_compute; reflexivity|]. split; [reflexivity|]. vm_compute. reflexivity.
Qed.

(** C9 (the claim as stated fails).  One result whose exit status is -1,
    as for a command that a signal ended: the loop receives it, and the
    aggregated exit status stays 0, which is not the maximum of the
    statuses observed, -1. *)
Lemma negative_status_does_not_show :
  observed (params "false") [lost] = [lost] /\
  statuses (observed (params "false") [lost]) = [(-1)%Z] /\
  option_map ExitCode (endWorld (rangeResults (params "false") [lost] world0))
  = Some 0%Z /\
  max 0 (-1) = 0%Z /\
  (0 <> -1)%Z.
Proof.
  split; [reflexivity|]. split; [reflexivity|]. split; [vm_compute; reflexivity|].
  split; [reflexivity|]. discriminate.
Qed.





(** C6 (the claim as stated fails).  The pattern [{{index .Lines 1}}] has
    no placeholder, so every byte of it should be rendered as it is, but
    the template takes it for an action and renders the second line.  The
    pattern [{010}] should render the element of Xs at index 10, but the
    template reads the digits as an octal constant and renders the element
    at index 8. *)
Lemma template_syntax_in_the_pattern_is_interpreted :
  (renderVia (bytes "{{index .Lines 1}}") eleven = Some (Ok (bytes "L1")) /\
   tokens (bytes "{{index .Lines 1}}") = map TByte (bytes "{{index .Lines 1}}") /\
   substitute (bytes "{{index .Lines 1}}") eleven = Ok (bytes "{{index .Lines 1}}") /\
   bytes "L1" <> bytes "{{index .Lines 1}}") /\
  (renderVia (bytes "{010}") eleven = Some (Ok (bytes "x8")) /\
   tokens (bytes "{010}") = [TIndex (bytes "010")] /\
   substitute (bytes "{010}") eleven = Ok (bytes "x10") /\
   bytes "x8" <> bytes "x10").
Proof.
  split; (split; [vm_compute; reflexivity|]); (split; [vm_compute; reflexivity|]);
    (split; [vm_compute; reflexivity|]); discriminate.
Qed.

Lemma compiled_template_substitutes_witness :
  (noDoubleBrace (bytes "echo {} {1}-{10} {a}}") = true /\
   plainIndices (bytes "echo {} {1}-{10} {a}}") = true) /\
  renderVia (bytes "echo {} {1}-{10} {a}}") eleven = Some (Ok (bytes "echo L0 x1-x10 {a}}")) /\
  substitute (bytes "echo {} {1}-{10} {a}}") eleven = Ok (bytes "echo L0 x1-x10 {a}}").
Proof.
  destruct (compiled_template_substitutes (bytes "echo {} {1}-{10} {a}}") eq_refl eq_refl)
    as (tmpl & HP & _ & HR).
  split; [split; reflexivity|].
  assert (Hs : substitute (bytes "echo {} {1}-{10} {a}}") eleven
               = Ok (bytes "echo L0 x1-x10 {a}}")) by (vm_compute; reflexivity).
  split; [|exact Hs].
  unfold renderVia. rewrite HP. cbn [option_map]. rewrite HR, Hs. reflexivity.
Defined.

(** C7 (the claim as stated fails).  The placeholder [{010}] is rendered
    against nine tokens, fewer than eleven: the render does not fail, the
    template reads the digits as an octal constant and gives the token at
    index 8. *)
Lemma index_with_leading_zero_renders :
  tokens (bytes "{010}") = [TIndex (bytes "010")] /\
  valueIn 10 (bytes "010") = 10%Z /\
  length (Xs nine) = 9 /\
  renderVia (bytes "{010}") nine = Some (Ok (bytes "x8")).
Proof.
  split; [vm_compute; reflexivity|]. split; [reflexivity|].
  split; [reflexivity|]. vm_compute. reflexivity.
Qed.


(** C8 (the claim as stated fails).  A dry run of [echo {0} {1}] over
    three lines in batches of two prints the first command and ends with
    log.Fatal's status 1 at the trailing batch. *)
Lemma dry_run_exit_status_may_be_fatal :
  DryRun (withDryRun pairsTwo) = true /\
  haltOf (main (echoEngine 0) (withDryRun pairsTwo) (input abc) world0)
  = Some (LogFatal (IndexOutOfRange 1)) /\
  exitStatus (LogFatal (IndexOutOfRange 1)) = Some 1%Z /\
  option_map osStdout (endWorld (main (echoEngine 0) (withDryRun pairsTwo) (input abc) world0))
  = Some (printed [bytes "echo a b"]).
Proof.
  split; [reflexivity|]. split; [vm_compute; reflexivity|].
  split; [reflexivity|]. vm_compute. reflexivity.
Qed.

Lemma dry_run_witness :
  (DryRun (withDryRun pairs) = true /\ echoEngine 0 [] = []) /\
  main (echoEngine 0) (withDryRun pairs) (input abc) world0
  = Halted (OsExit 0)
      (closeCh (setCancel ChanClosed
         (writeStdout (printed [bytes "echo a"; bytes "echo c"]) world0))).
Proof.
  destruct (dry_run_prints_the_commands (echoEngine 0) (withDryRun pairs) (input abc)
              eq_refl eq_refl) as (wd & Hend & _ & _ & Hcount & _).
  split; [split; reflexivity|].
  destruct (Hcount echoLine abcReader 2 eq_refl eq_refl eq_refl eq_refl
              (le_S 1 1 (le_n 1)) eq_refl eq_refl eq_refl) as (Hok & _).
  destruct (Hok [bytes "echo a"; bytes "echo c"]) as (Hexit & _).
  { vm_compute. repeat constructor. }
  rewrite Hexit. f_equal.
  assert (E : endWorld (main (echoEngine 0) (withDryRun pairs) (input abc) world0)
              = Some (closeCh (setCancel ChanClosed
                        (writeStdout (printed [bytes "echo a"; bytes "echo c"]) world0))))
    by (vm_compute; reflexivity).
  rewrite E in Hend. now injection Hend as <-.
Defined.

(** C10 (the claim as stated fails).  The last line [a] followed by a
    carriage return and no newline keeps its carriage return: the command
    is [echo a] with the carriage return, not [echo a]. *)
Lemma carriage_return_without_newline_is_kept :
  inputLines {| pending := bytes "a" ++ [cr]; final := EOF |} = [bytes "a" ++ [cr]] /\
  option_map sent
    (endWorld (main (echoEngine 0) (params "echo {}") (input (bytes "a" ++ [cr])) world0))
  = Some [bytes "echo a" ++ [cr]] /\
  chompCR (bytes "a" ++ [cr]) = bytes "a" /\
  bytes "echo a" ++ [cr] <> bytes "echo a".
Proof.
  split; [vm_compute; reflexivity|]. split; [vm_compute; reflexivity|].
  split; [reflexivity|]. discriminate.
Qed.

Lemma line_framing_witness :
  newlineFree (bytes "a") /\
  stripEOL (bytes "a" ++ [cr; nl]) = bytes "a" /\
  stripEOL (bytes "a" ++ [nl]) = bytes "a" /\
  inputLines {| pending := withNewlines [bytes "a" ++ [cr]; bytes "b"] ++ bytes "c";
                final := EOF |}
  = [bytes "a"; bytes "b"; bytes "c"].
Proof.
  assert (Ha : newlineFree (bytes "a")).
  { unfold newlineFree. cbn. intros [H|[]]. discriminate H. }
  assert (Hacr : newlineFree (bytes "a" ++ [cr])).
  { unfold newlineFree. cbn. intros [H|[H|[]]]; discriminate H. }
  assert (Hb : newlineFree (bytes "b")).
  { unfold newlineFree. cbn. intros [H|[]]. discriminate H. }
  assert (Hc : newlineFree (bytes "c")).
  { unfold newlineFree. cbn. intros [H|[]]. discriminate H. }
  destruct (line_framing (params "echo {}") None echoLine) as (Hstrip & _ & _ & Hlines).
  destruct (Hstrip (bytes "a") Ha) as (H1 & H2 & _).
  split; [exact Ha|]. split; [exact H2|]. split; [rewrite H1; reflexivity|].
  rewrite Hlines; [reflexivity | repeat constructor; assumption | exact Hc].
Defined.

End ConcreteRuns.


(** * Part IV: further properties of main.go *)

(** ** Invariants of the generator *)
Section GeneratorInvariants.
Context {RE : RegexpLib}.
Import GoTemplate.

Lemma maintains_bind {A B} Inv (m : M A) (k : A -> M B) :
  maintains Inv m -> (forall a, maintains Inv (k a)) -> maintains Inv (bind m k).
Proof.
  intros Hm Hk w HI. specialize (Hm w HI). unfold bind, endsIn in *.
  destruct (m w) as [a w'|h w'|]; [|exact Hm|exact I].
  exact (Hk a w' Hm).
Qed.

Lemma maintains_ret {A} Inv (a : A) : maintains Inv (ret a).
Proof. now intros w HI. Qed.

Lemma maintains_halt {A} Inv h : maintains Inv (@halt A h).
Proof. intros w HI. now exists w. Qed.

Lemma maintains_check {A} Inv (r : result A) : maintains Inv (check r).
Proof. destruct r; [apply maintains_ret | apply maintains_halt]. Qed.

Lemma maintains_consumeLine Inv args resep tmpl line lines buf :
  (forall cmd, maintains Inv (handleCommand args cmd)) ->
  maintains Inv (consumeLine args resep tmpl line lines buf).
Proof.
  intros Hh. unfold consumeLine. destruct resep; [|apply maintains_ret].
  apply maintains_bind; [apply maintains_check|]. intros buf'.
  apply maintains_bind; [apply Hh|]. intros _. apply maintains_ret.
Qed.

Lemma maintains_emitFullBatch Inv args tmpl lines buf :
  (forall cmd, maintains Inv (handleCommand args cmd)) ->
  maintains Inv (emitFullBatch args tmpl lines buf).
Proof.
  intros Hh. unfold emitFullBatch.
  destruct (Z.of_nat (length lines) =? Nlines args)%Z; [|apply maintains_ret].
  apply maintains_bind; [apply maintains_check|]. intros buf'.
  apply maintains_bind; [apply Hh|]. intros _. apply maintains_ret.
Qed.

Lemma maintains_emitLastBatch Inv args tmpl lines :
  (forall cmd, maintains Inv (handleCommand args cmd)) ->
  maintains Inv (emitLastBatch args tmpl lines).
Proof.
  intros Hh. unfold emitLastBatch. destruct (0 <? length lines)%nat; [|apply maintains_ret].
  apply maintains_bind; [apply maintains_check|]. intros cmd. apply Hh.
Qed.

Lemma maintains_genLoop Inv args resep tmpl fuel rdr lines :
  (forall cmd, maintains Inv (handleCommand args cmd)) ->
  maintains Inv (genLoop fuel args resep tmpl rdr lines).
Proof.
  intros Hh. revert rdr lines. induction fuel as [|fuel IH]; intros rdr lines.
  - now intros w HI.
  - cbn [genLoop]. destruct (ReadString rdr nl) as [[line err] rdr'].
    destruct (readOk line err).
    + apply maintains_bind; [now apply maintains_consumeLine|]. intros [lines1 buf1].
      apply maintains_bind; [now apply maintains_emitFullBatch|]. intros [lines2 buf2].
      apply IH.
    + destruct err as [[|msg]|];
        [apply maintains_ret | apply maintains_halt | apply maintains_ret].
Qed.

(** What handing on the commands keeps, the generator keeps up to the
    point where it closes its channel or halts, and it closes the channel
    only when it ends normally. *)
Lemma genCommands_ends Inv args tmpl env w :
  (forall cmd, maintains Inv (handleCommand args cmd)) ->
  Inv w ->
  match genCommands args tmpl env w with
  | Ret _ w' => exists w1, Inv w1 /\ w' = closeCh w1
  | Halted h w' => exists w1, Inv w1 /\ w' = onHalt h w1
  | OutOfFuel => False
  end.
Proof.
  intros Hh HI. pose proof (total_genCommands args tmpl env w) as Htot.
  assert (Hbody : maintains Inv
    (resep <- (if isEmpty (Sep args) then ret None
               else match Compile (Sep args) with
                    | Some re => ret (Some re)
                    | None => halt (Panicked RegexpMustCompile)
                    end) ;;
     rdr <- check (Ropen env) ;;
     makeslice env (Nlines args) ;;;
     lines <- genLoop (loopFuel rdr) args resep tmpl rdr [] ;;
     emitLastBatch args tmpl lines)).
  { apply maintains_bind.
    { destruct (isEmpty (Sep args)); [apply maintains_ret|].
      destruct (Compile (Sep args)); [apply maintains_ret | apply maintains_halt]. }
    intros resep. apply maintains_bind; [apply maintains_check|]. intros rdr.
    apply maintains_bind.
    { unfold makeslice.
      destruct ((Nlines args <? 0)%Z || (maxSliceCap <? Nlines args)%Z);
        [apply maintains_halt|].
      destruct (allocated env (Nlines args)); [apply maintains_ret | apply maintains_halt]. }
    intros _. apply maintains_bind; [now apply maintains_genLoop|]. intros lines.
    now apply maintains_emitLastBatch. }
  specialize (Hbody w HI). revert Hbody Htot.
  unfold genCommands, bind, endsIn.
  destruct (if isEmpty (Sep args) then ret None
            else match Compile (Sep args) with
                 | Some re => ret (Some re)
                 | None => halt (Panicked RegexpMustCompile)
                 end) as [resep w1|h w1|]; [|auto|easy].
  destruct (check (Ropen env) w1) as [rdr w2|h w2|]; [|auto|easy].
  destruct (makeslice env (Nlines args) w2) as [[] w3|h w3|]; [|auto|easy].
  destruct (genLoop (loopFuel rdr) args resep tmpl rdr [] w3) as [lines w4|h w4|]; [|auto|easy].
  destruct (emitLastBatch args tmpl lines w4) as [[] w5|h w5|]; [|auto|easy].
  intros Hb _. cbn. now exists w5.
Qed.

End GeneratorInvariants.

(** ** What the generator writes and what it leaves alone *)
Section GeneratorEffects.
Context {RE : RegexpLib}.
Import GoTemplate.

(** What a halt changes of the state: nothing but the log. *)
Lemma onHalt_fields h w :
  osStdout (onHalt h w) = osStdout w /\ osStderr (onHalt h w) = osStderr w /\
  sent (onHalt h w) = sent w /\ chClosed (onHalt h w) = chClosed w /\
  ExitCode (onHalt h w) = ExitCode w /\ cancel (onHalt h w) = cancel w /\
  stdoutW (onHalt h w) = stdoutW w /\
  logged (onHalt h w) = logged w ++ match h with LogFatal e => [e] | _ => [] end.
Proof. destruct h; cbn; rewrite ?app_nil_r; auto 10. Qed.



(** X4.  Every run of the program ends by a halt: [os.Exit], [log.Fatal],
    a panic or a fatal error of the runtime (or a pattern outside the
    modelled template fragment); the
    reading loop never runs out of the fuel given to it, however the input
    looks. *)
Theorem program_always_halts
    (Runner : list str -> list process.Command) (args : Params) (env : Env) (w : World) :
  exists h w', main Runner args env w = Halted h w'.
Proof.
  unfold main.
  destruct (negb (isEmpty (Sep args)) && (Nlines args >? 1)%Z); [now eexists; eexists|].
  destruct (negb (IsStdin env)); [now eexists; eexists|].
  unfold bind at 1. unfold run, makeCommandTmpl, bind at 1.
  destruct (Parse (rewritePattern (Command args))) as [tmpl|].
  2:{ destruct (ParseError (rewritePattern (Command args))); now eexists; eexists. }
  cbn [ret]. unfold bind.
  pose proof (total_genCommands args tmpl env w) as Htot.
  destruct (genCommands args tmpl env w) as [[] w1|h w1|]; [|now eexists; eexists|easy].
  destruct (drain_end args (Runner (sent w1)) w1) as (w2 & E & _). rewrite E.
  destruct (cancelled args (Runner (sent w1))); now eexists; eexists.
Qed.

End GeneratorEffects.

(** ** More about the orchestrator *)
Section OrchestratorEffects.

Lemma cancelled_iff args results :
  cancelled args results = true <->
  ContinueOnError args = false /\
  exists p, In p results /\ process.ExitCode p <> 0%Z.
Proof.
  unfold cancelled. rewrite andb_true_iff, negb_true_iff, existsb_exists.
  unfold failed. split; intros [H (p & Hp & Hf)]; (split; [exact H|]); exists p;
    (split; [exact Hp|]).
  - apply negb_true_iff in Hf. now apply Z.eqb_neq.
  - apply negb_true_iff. now apply Z.eqb_neq.
Qed.

(** X5.  The part of [run] that drains the results ends in the panic of
    the second [close(cancel)] exactly when continue-on-error is off and
    some result has a non-zero exit status; in every other case it returns
    normally, whatever the results are. *)
Theorem run_panics_exactly_on_cancellation (args : Params)
    (results : list process.Command) (w : World) :
  (haltOf (drain args results w) = Some (Panicked CloseOfClosedChannel) \/
   haltOf (drain args results w) = None) /\
  (haltOf (drain args results w) = Some (Panicked CloseOfClosedChannel) <->
   ContinueOnError args = false /\
   exists p, In p results /\ process.ExitCode p <> 0%Z) /\
  (ContinueOnError args = true -> exists w', drain args results w = Ret tt w') /\
  ((forall p, In p results -> process.ExitCode p = 0%Z) ->
   exists w', drain args results w = Ret tt w').
Proof.
  destruct (drain_end args results w) as (w' & E & _).
  pose proof (cancelled_iff args results) as Hc.
  destruct (cancelled args results) eqn:C; rewrite E; cbn [haltOf].
  - split; [now left|]. split; [tauto|]. split.
    + intros Hcoe. destruct Hc as [Hc _]. destruct (Hc eq_refl) as [Hc' _]. congruence.
    + intros Hall. destruct Hc as [Hc _]. destruct (Hc eq_refl) as (_ & p & Hp & Hne).
      now destruct Hne; apply Hall.
  - split; [now right|]. split.
    + split; [discriminate|]. intros H. destruct Hc as [_ Hc]. now specialize (Hc H).
    + split; intros _; now exists w'.
Qed.

Lemma rangeResults_cut args pre p post w :
  ContinueOnError args = false -> failed p = true ->
  rangeResults args (pre ++ p :: post) w = rangeResults args (pre ++ [p]) w.
Proof.
  intros Hcoe Hf. revert w. induction pre as [|q pre IH]; intros w.
  - cbn [app rangeResults]. unfold bind.
    assert (Hb : match resultBody args p w with
                 | Ret Continue _ => False
                 | _ => True
                 end).
    { unfold resultBody, bind. unfold failed in Hf. rewrite Hf, Hcoe. cbn.
      unfold closeCancel. now destruct (cancel (setExitCode _ w)). }
    destruct (resultBody args p w) as [[] w'|h w'|]; easy.
  - cbn [app rangeResults]. unfold bind.
    destruct (resultBody args q w) as [[] w'|h w'|]; auto.
Qed.

(** X6.  With continue-on-error off, the results that the engine delivers
    after the first failed one change nothing: [run] leaves the same exit
    code, the same output and ends the same way as if the failed result
    had been the last. *)
Theorem results_after_the_first_failure_are_ignored (args : Params)
    (pre post : list process.Command) (p : process.Command) (w : World) :
  ContinueOnError args = false ->
  process.ExitCode p <> 0%Z ->
  drain args (pre ++ p :: post) w = drain args (pre ++ [p]) w.
Proof.
  intros Hcoe Hne.
  assert (Hf : failed p = true).
  { unfold failed. apply negb_true_iff. now apply Z.eqb_neq. }
  unfold drain, bind, defer, effect.
  now rewrite (rangeResults_cut args pre p post _ Hcoe Hf).
Qed.

Lemma highest_zero l :
  highest 0 l = 0%Z <-> forall x, In x l -> (x <= 0)%Z.
Proof.
  split.
  - intros H x Hx. pose proof (highest_upper 0 l x Hx). lia.
  - intros H. destruct (highest_attained 0 l) as [E|E]; [exact E|].
    pose proof (H _ E). pose proof (highest_ge 0 l). lia.
Qed.

(** X7.  The exit code the loop leaves is never negative, and it is zero
    exactly when no result the loop received has a positive exit status:
    a positive status is never lost, while a result with a negative status
    does not show in the exit code. *)
Theorem exit_code_zero_iff_no_positive_status (args : Params)
    (results : list process.Command) :
  exists w',
    rangeResults args results world0 = Ret tt w' /\
    (0 <= ExitCode w')%Z /\
    (ExitCode w' = 0%Z <->
     forall p, In p (observed args results) -> (process.ExitCode p <= 0)%Z).
Proof.
  destruct (rangeResults_end args results world0 eq_refl eq_refl) as (w' & E & _).
  exists w'. split; [exact E|].
  assert (X : ExitCode w' = highest 0 (statuses (observed args results))).
  { apply (rangeResults_exit args results world0); [cbn; lia | now rewrite E]. }
  rewrite X. split; [apply highest_ge|]. rewrite highest_zero. unfold statuses. split.
  - intros H p Hp. apply H. now apply in_map.
  - intros H x Hx. apply in_map_iff in Hx. destruct Hx as (p & <- & Hp). now apply H.
Qed.

End OrchestratorEffects.

(** ** Edge cases of the generator *)
Section GeneratorEdges.
Context {RE : RegexpLib}.
Import GoTemplate.

(** X8.  With a batch size for which the slice of the batch is made
    ([make] accepts it as a capacity and finds the memory), a read error
    other than the end of the input is fatal: the lines that ended with a newline
    before the error are worked on like any others, then the generator
    ends with log.Fatal, which prints the error on os.Stderr; the bytes
    after the last newline and the lines still in the batch give no
    command, and the channel of commands is not closed. *)
Theorem read_error_is_fatal (args : Params) (tmpl : Template) (env : Env)
    (rdr : Reader) (resep : option Regexp) (msg : str) (w : World) :
  (if isEmpty (Sep args) then Some None else option_map Some (Compile (Sep args)))
    = Some resep ->
  Ropen env = Ok rdr ->
  sliceMade env (Nlines args) = true ->
  final rdr = ReadError msg ->
  inputLines rdr = map stripEOL (terminated (pending rdr)) /\
  genCommands args tmpl env w =
    bind (feed args resep tmpl (inputLines rdr) [])
         (fun _ => halt (LogFatal (ReadFailed msg))) w /\
  (forall lines w1,
     feed args resep tmpl (inputLines rdr) [] w = Ret lines w1 ->
     genCommands args tmpl env w =
       Halted (LogFatal (ReadFailed msg)) (logError (ReadFailed msg) w1)) /\
  exists h w', genCommands args tmpl env w = Halted h w' /\ chClosed w' = chClosed w.
Proof.
  intros Hre Hin Hn Hfin.
  assert (Hgen : genCommands args tmpl env w =
                 bind (feed args resep tmpl (inputLines rdr) [])
                      (fun _ => halt (LogFatal (ReadFailed msg))) w).
  { rewrite (genCommands_loop args tmpl env rdr resep) by assumption.
    apply bind_ext. intros lines w1. unfold endOfInput. now rewrite Hfin. }
  split.
  { unfold inputLines. rewrite Hfin, app_nil_r. reflexivity. }
  split; [exact Hgen|]. split.
  { intros lines w1 Hf. rewrite Hgen. unfold bind. now rewrite Hf. }
  pose proof (genCommands_ends (fun w' => chClosed w' = chClosed w) args tmpl env w) as He.
  assert (Hh : forall cmd, maintains (fun w' => chClosed w' = chClosed w)
                             (handleCommand args cmd)).
  { intros cmd w1 H1. unfold handleCommand, bind, effect, ret, endsIn.
    now destruct (Verbose args), (DryRun args). }
  specialize (He Hh eq_refl).
  destruct (genCommands args tmpl env w) as [[] w'|h w'|] eqn:Eg; [| |easy].
  - exfalso. unfold bind in Hgen.
    destruct (feed args resep tmpl (inputLines rdr) [] w); discriminate.
  - destruct He as (w1 & H1 & ->). exists h, (onHalt h w1). split; [reflexivity|].
    destruct (onHalt_fields h w1) as (_ & _ & _ & F4 & _). now rewrite F4.
Qed.


(** X16.  A negative batch size is not refused by [main]; once the
    pattern and the separator are compiled and the input is open, the
    generator panics when it makes the slice of the batch, before a byte
    of the input is read. *)
Theorem negative_batch_size_panics
    (Runner : list str -> list process.Command) (args : Params) (tmpl : Template)
    (env : Env) (resep : option Regexp) (rdr : Reader) (w : World) :
  (Nlines args < 0)%Z ->
  IsStdin env = true ->
  Parse (rewritePattern (Command args)) = Some tmpl ->
  (if isEmpty (Sep args) then Some None else option_map Some (Compile (Sep args)))
    = Some resep ->
  Ropen env = Ok rdr ->
  reachesRun args env = true /\
  main Runner args env w = Halted (Panicked MakesliceCapOutOfRange) w.
Proof.
  intros Hn Hi Hp Hre Hin.
  assert (Hr : reachesRun args env = true).
  { unfold reachesRun. rewrite Hi.
    replace (Nlines args >? 1)%Z with false
      by (symmetry; rewrite Z.gtb_ltb; apply Z.ltb_ge; lia).
    now rewrite andb_false_r. }
  split; [exact Hr|].
  apply (main_gen_halted Runner args env tmpl _ w w Hr Hp).
  unfold genCommands, makeslice.
  replace (Nlines args <? 0)%Z with true by (symmetry; apply Z.ltb_lt; lia).
  rewrite Hin. destruct (isEmpty (Sep args)).
  - reflexivity.
  - destruct (Compile (Sep args)); [reflexivity|discriminate].
Qed.

Lemma fill_zero ls cur : fill 0 ls cur = ([], cur ++ ls).
Proof.
  revert cur. induction ls as [|l ls IH]; intros cur; cbn [fill].
  - now rewrite app_nil_r.
  - destruct (Nat.eqb_spec (length (cur ++ [l])) 0) as [E|_].
    + rewrite length_app in E. cbn in E. lia.
    + rewrite IH, <- app_assoc. reflexivity.
Qed.

(** X10.  With a batch size of zero and no separator the batch is never
    full: all the lines of the input make one batch, which is rendered
    once, at the end of the input. *)
Theorem batch_size_zero_takes_all_lines (args : Params) (tmpl : Template)
    (env : Env) (rdr : Reader) (w : World) :
  isEmpty (Sep args) = true ->
  Nlines args = 0%Z ->
  Ropen env = Ok rdr ->
  final rdr = EOF ->
  genCommands args tmpl env w =
    bind (emitEach args (renderBatch tmpl)
            (if isEmpty (inputLines rdr) then [] else [inputLines rdr]))
         (fun _ => effect closeCh) w.
Proof.
  intros Hs Hn Hin Hfin.
  assert (Hcap : sliceMade env (Nlines args) = true) by (rewrite Hn; reflexivity).
  rewrite (genCommands_count args tmpl env rdr 0 w Hs Hn Hcap Hin Hfin).
  unfold batchesOf. rewrite fill_zero. reflexivity.
Qed.

Lemma Execute_no_data tmpl f i buf :
  In (IndexNode f i) tmpl ->
  exists e, Execute tmpl buf {| Lines := []; Xs := [] |} = Err e.
Proof.
  revert buf. induction tmpl as [|[s|f' i'] tmpl IH]; intros buf HIn; [easy| |].
  - destruct HIn as [H|H]; [discriminate|]. cbn [Execute]. now apply IH.
  - cbn [Execute]. unfold index.
    destruct (i' <? 0)%Z; [now eexists|].
    destruct f'; cbn [field Lines Xs]; destruct (Z.to_nat i'); now eexists.
Qed.

(** X11.  With a separator and a batch size of zero, which [main] lets
    through, the batch branch fires after the first line on the empty
    batch: for a template with a placeholder the command of the first line
    is handed on and the run then ends with a fatal render error; the
    lines after the first give nothing. *)
Theorem separator_with_batch_size_zero_is_fatal (args : Params) (tmpl : Template)
    (env : Env) (rdr : Reader) (re : Regexp) (L : str) (rest : list str)
    (c : str) (f : Field) (i : Z) (w : World) :
  isEmpty (Sep args) = false ->
  Compile (Sep args) = Some re ->
  Nlines args = 0%Z ->
  Ropen env = Ok rdr ->
  inputLines rdr = L :: rest ->
  Execute tmpl [] {| Lines := [L]; Xs := Split re L |} = Ok c ->
  In (IndexNode f i) tmpl ->
  reachesRun args env = IsStdin env /\
  exists e,
    genCommands args tmpl env w =
    bind (handleCommand args c) (fun _ => halt (LogFatal e)) w.
Proof.
  intros Hs Hc Hn Hin Hls Hok HIn. split.
  { unfold reachesRun. rewrite Hn. cbn [Z.gtb Z.compare]. now rewrite andb_false_r. }
  destruct (Execute_no_data tmpl f i c HIn) as [e He]. exists e.
  assert (Hcap : sliceMade env (Nlines args) = true) by (rewrite Hn; reflexivity).
  rewrite (genCommands_loop args tmpl env rdr (Some re)) by (rewrite ?Hs, ?Hc; auto).
  rewrite Hls. cbn [feed consumeLine]. rewrite Hok. cbn [check].
  unfold emitFullBatch. rewrite Hn. cbn [length Z.of_nat Z.eqb].
  unfold bind, ret. destruct (handleCommand args c w) as [[] w1| |]; try reflexivity.
  rewrite He. reflexivity.
Qed.

End GeneratorEdges.

(** ** The whole pipeline in a dry run *)
Section Pipeline.
Context {RE : RegexpLib}.
Import GoTemplate PatternSpec.

Lemma tokens_plain s r :
  braceFree s = true -> tokens (s ++ r) = map TByte s ++ tokens r.
Proof.
  induction s as [|c s IH]; [reflexivity|]. cbn [braceFree forallb]. intros H.
  apply andb_prop in H. destruct H as [Hc Hs]. apply negb_true_iff in Hc.
  cbn [app map]. rewrite tokens_byte, (IH Hs); [reflexivity| |].
  - cbn [bytes list_ascii_of_string GoStrings.HasPrefix]. change "{"%char with lbrace.
    now rewrite (Ascii.eqb_sym lbrace c), Hc.
  - unfold GoRegexp.matchIndex. now rewrite Hc.
Qed.

Lemma tokens_fill pre post :
  braceFree pre = true -> braceFree post = true ->
  tokens (pre ++ bytes "{}" ++ post) = map TByte pre ++ TLine :: map TByte post.
Proof.
  intros Hpre Hpost. rewrite (tokens_plain pre _ Hpre). f_equal.
  change (bytes "{}" ++ post) with (lbrace :: rbrace :: post).
  rewrite tokens_line. f_equal.
  rewrite <- (app_nil_r post) at 1. rewrite (tokens_plain post [] Hpost).
  apply app_nil_r.
Qed.

Lemma noDoubleBrace_cons c t :
  noDoubleBrace (c :: t) =
  match t with
  | d :: _ => negb (Ascii.eqb c lbrace && Ascii.eqb d lbrace) && noDoubleBrace t
  | [] => true
  end.
Proof. reflexivity. Qed.

Lemma noDoubleBrace_plain s r :
  braceFree s = true -> noDoubleBrace r = true -> noDoubleBrace (s ++ r) = true.
Proof.
  intros Hs Hr. induction s as [|c s IH]; [exact Hr|].
  cbn [braceFree forallb] in Hs. apply andb_prop in Hs. destruct Hs as [Hc Hs].
  apply negb_true_iff in Hc. cbn [app]. rewrite noDoubleBrace_cons.
  specialize (IH Hs). destruct (s ++ r); [reflexivity|]. now rewrite Hc, IH.
Qed.

Lemma noDoubleBrace_fill pre post :
  braceFree pre = true -> braceFree post = true ->
  noDoubleBrace (pre ++ bytes "{}" ++ post) = true.
Proof.
  intros Hpre Hpost. apply noDoubleBrace_plain; [exact Hpre|].
  change (bytes "{}" ++ post) with (lbrace :: rbrace :: post).
  rewrite noDoubleBrace_cons.
  change (Ascii.eqb rbrace lbrace) with false. rewrite andb_false_r. cbn [negb andb].
  rewrite <- (app_nil_r (rbrace :: post)).
  apply noDoubleBrace_plain; [|reflexivity]. cbn [braceFree forallb]. exact Hpost.
Qed.

Lemma plainIndices_fill pre post :
  braceFree pre = true -> braceFree post = true ->
  plainIndices (pre ++ bytes "{}" ++ post) = true.
Proof.
  intros Hpre Hpost. unfold plainIndices. rewrite tokens_fill by assumption.
  rewrite forallb_app. cbn [forallb].
  assert (Hb : forall s, forallb (fun t => match t with
                                          | TIndex ds => plainDecimal ds
                                          | _ => true
                                          end) (map TByte s) = true).
  { induction s as [|c s IH]; [reflexivity|exact IH]. }
  now rewrite !Hb.
Qed.

Lemma renderTokens_plain data s ts :
  renderTokens data (map TByte s ++ ts) = after s (renderTokens data ts).
Proof.
  induction s as [|c s IH]; cbn [map app renderTokens].
  - now destruct (renderTokens data ts).
  - rewrite IH. apply after_after.
Qed.

Lemma render_fill tmpl pre post l :
  braceFree pre = true -> braceFree post = true ->
  renders tmpl (tokens (pre ++ bytes "{}" ++ post)) ->
  renderBatch tmpl [l] = Ok (pre ++ l ++ post).
Proof.
  intros Hpre Hpost Hr. unfold renderBatch. rewrite Hr, tokens_fill by assumption.
  rewrite renderTokens_plain. cbn [renderTokens Lines].
  rewrite <- (app_nil_r (map TByte post)), renderTokens_plain.
  cbn [renderTokens]. unfold element. cbn. now rewrite app_nil_r.
Qed.

Lemma fill_one ls : fill 1 ls [] = (map (fun l => [l]) ls, []).
Proof.
  induction ls as [|l ls IH]; [reflexivity|]. cbn [fill app length Nat.eqb map].
  now rewrite IH.
Qed.

Lemma batchesOf_one ls : batchesOf 1 ls = map (fun l => [l]) ls.
Proof. unfold batchesOf. rewrite fill_one. cbn [isEmpty]. apply app_nil_r. Qed.

(** What a dry run does with the commands handed on. *)
Lemma handAll_dry args cmds w :
  DryRun args = true ->
  exists w',
    handAll args cmds w = Ret tt w' /\
    osStdout w' = osStdout w ++ printed cmds /\
    sent w' = sent w /\ ExitCode w' = ExitCode w.
Proof.
  intros Hd. revert w. induction cmds as [|c cmds IH]; intros w.
  - exists w. cbn. now rewrite app_nil_r.
  - cbn [handAll]. unfold bind at 1, handleCommand, bind, effect, ret. rewrite Hd.
    destruct (Verbose args).
    + destruct (IH (writeStdout (c ++ [nl])
                      (writeStderr (bytes "command: " ++ c ++ [nl]) w)))
        as (w' & E & H1 & H2 & H3).
      exists w'. split; [exact E|]. rewrite H1, H2, H3. cbn.
      unfold printed. cbn [map concat]. now rewrite <- !app_assoc.
    + destruct (IH (writeStdout (c ++ [nl]) w)) as (w' & E & H1 & H2 & H3).
      exists w'. split; [exact E|]. rewrite H1, H2, H3. cbn.
      unfold printed. cbn [map concat]. now rewrite <- !app_assoc.
Qed.

(** X12.  A dry run with the default batch size and a pattern that holds
    the placeholder [{}] once, between two texts free of opening braces,
    prints for every line of the input the pattern with the line in the
    placeholder's place, sends nothing and exits with status 0.  With the
    bare pattern [{}] and an input whose lines all end with a newline that
    no carriage return precedes, what is printed is the input itself. *)
Theorem dry_run_fills_the_line_placeholder
    (Runner : list str -> list process.Command) (args : Params) (env : Env)
    (rdr : Reader) (pre post : str) :
  Runner [] = [] ->
  DryRun args = true ->
  isEmpty (Sep args) = true ->
  Nlines args = 1%Z ->
  IsStdin env = true ->
  Ropen env = Ok rdr ->
  final rdr = EOF ->
  Command args = pre ++ bytes "{}" ++ post ->
  braceFree pre = true ->
  braceFree post = true ->
  exists w',
    main Runner args env world0 = Halted (OsExit 0) w' /\
    osStdout w' = printed (map (fun l => pre ++ l ++ post) (inputLines rdr)) /\
    sent w' = [] /\
    (pre = [] -> post = [] ->
     forall ls, pending rdr = withNewlines ls ->
       Forall newlineFree ls -> Forall (fun l => chompCR l = l) ls ->
       osStdout w' = pending rdr).
Proof.
  intros HR Hd Hs Hn Hi Hin Hfin Hcmd Hpre Hpost.
  destruct (compile_parse (Command args)) as (tmpl & Hp & Hr).
  { rewrite Hcmd. now apply noDoubleBrace_fill. }
  { rewrite Hcmd. now apply plainIndices_fill. }
  rewrite Hcmd in Hr.
  assert (Hrr : reachesRun args env = true).
  { unfold reachesRun. now rewrite Hs, Hi. }
  rewrite (main_after_gen Runner args env tmpl world0 Hrr Hp).
  assert (Hcap : sliceMade env (Nlines args) = true) by (rewrite Hn; reflexivity).
  rewrite (genCommands_count args tmpl env rdr 1 world0 Hs Hn Hcap Hin Hfin).
  rewrite batchesOf_one. unfold bind.
  rewrite (emitEach_handAll args (renderBatch tmpl) _
             (map (fun l => pre ++ l ++ post) (inputLines rdr))).
  2:{ induction (inputLines rdr) as [|l ls IH]; cbn [map]; constructor; [|exact IH].
      now apply render_fill. }
  destruct (handAll_dry args (map (fun l => pre ++ l ++ post) (inputLines rdr)) world0 Hd)
    as (w1 & E & H1 & H2 & H3).
  rewrite E. unfold effect.
  destruct (drain_end args (Runner (sent (closeCh w1))) (closeCh w1))
    as (w' & D & D1 & _ & D3 & D4).
  cbn [sent closeCh] in D, D1, D3, D4. rewrite H2 in D, D1, D3, D4.
  cbn [sent world0] in D, D1, D3, D4. rewrite HR in D, D1, D4.
  unfold cancelled in D. cbn [existsb] in D. rewrite andb_false_r in D.
  cbn [sent closeCh]. rewrite H2. cbn [sent world0]. rewrite HR, D.
  cbn in D1, D4. rewrite app_nil_r in D1. rewrite D4 by (rewrite H3; cbn; lia).
  rewrite H3. cbn [ExitCode world0]. exists w'.
  split; [reflexivity|]. split; [now rewrite D1, H1|]. split; [exact D3|].
  intros -> -> ls Hpend Hfree Hcr. rewrite D1, H1. cbn [osStdout world0 app].
  destruct rdr as [pend fin]. cbn [pending final] in *. subst pend fin.
  rewrite <- (app_nil_r (withNewlines ls)) at 1.
  rewrite (inputLines_withNewlines ls [] Hfree) by (intros []).
  cbn [isEmpty]. rewrite app_nil_r, map_map.
  unfold printed, withNewlines. f_equal. rewrite map_map.
  clear -Hcr. induction Hcr as [|l ls Hl _ IH]; [reflexivity|].
  cbn [map app]. now rewrite Hl, app_nil_r, IH.
Qed.

End Pipeline.

(** ** The two placeholders without a separator *)
Section Placeholders.
Context {RE : RegexpLib}.
Import GoTemplate PatternSpec.







End Placeholders.

(** ** What the flags do not change *)
Section Flags.
Context {RE : RegexpLib}.
Variable all : bool.
Variables args1 args2 : Params.
Hypothesis HN : Nlines args1 = Nlines args2.
Hypothesis HCmd : Command args1 = Command args2.
Hypothesis HSep : Sep args1 = Sep args2.
Hypothesis HCoe : ContinueOnError args1 = ContinueOnError args2.
Hypothesis HDry : DryRun args1 = DryRun args2.
Hypothesis HV : all = true -> Verbose args1 = Verbose args2.

Local Notation "'R'" := (agree all).

Lemma related_bind {A B} (m1 m2 : M A) (k1 k2 : A -> M B) :
  related R m1 m2 -> (forall a, related R (k1 a) (k2 a)) ->
  related R (bind m1 k1) (bind m2 k2).
Proof.
  intros Hm Hk w1 w2 H. unfold bind. specialize (Hm w1 w2 H).
  destruct (m1 w1) as [a w1'|h w1'|], (m2 w2) as [b w2'|h' w2'|]; try easy.
  destruct Hm as [<- H']. now apply Hk.
Qed.

Lemma related_ret {A} (a : A) : related R (ret a) (ret a).
Proof. now intros w1 w2 H. Qed.

Lemma related_halt {A} h : related R (@halt A h) (halt h).
Proof.
  intros w1 w2 (H1 & H2 & H3 & H4 & H5 & H6 & HL & H7). split; [reflexivity|].
  destruct h; unfold agree; cbn; rewrite ?HL; auto 12.
Qed.

Lemma related_check {A} (r : result A) : related R (check r) (check r).
Proof. destruct r; [apply related_ret | apply related_halt]. Qed.

Lemma related_effect (f : World -> World) :
  (forall w1 w2, R w1 w2 -> R (f w1) (f w2)) -> related R (effect f) (effect f).
Proof. intros Hf w1 w2 H. cbn. split; [reflexivity|]. now apply Hf. Qed.

Lemma related_handleCommand cmd :
  related R (handleCommand args1 cmd) (handleCommand args2 cmd).
Proof.
  intros w1 w2 (H1 & H2 & H3 & H4 & H5 & H6 & HL & H7).
  unfold handleCommand, bind, effect, ret. rewrite HDry.
  destruct all.
  - rewrite (HV eq_refl). specialize (H7 eq_refl).
    destruct (Verbose args2), (DryRun args2); cbn; unfold agree; cbn;
      (split; [reflexivity|]); repeat split; congruence.
  - destruct (Verbose args1), (Verbose args2), (DryRun args2); cbn; unfold agree; cbn;
      (split; [reflexivity|]); repeat split; congruence.
Qed.

Lemma related_consumeLine resep tmpl line lines buf :
  related R (consumeLine args1 resep tmpl line lines buf)
            (consumeLine args2 resep tmpl line lines buf).
Proof.
  unfold consumeLine. destruct resep as [re|]; [|apply related_ret].
  apply related_bind; [apply related_check|]. intros cmd.
  apply related_bind; [apply related_handleCommand|]. intros _. apply related_ret.
Qed.

Lemma related_emitFullBatch tmpl lines buf :
  related R (emitFullBatch args1 tmpl lines buf) (emitFullBatch args2 tmpl lines buf).
Proof.
  unfold emitFullBatch. rewrite HN.
  destruct (Z.of_nat (length lines) =? Nlines args2)%Z; [|apply related_ret].
  apply related_bind; [apply related_check|]. intros cmd.
  apply related_bind; [apply related_handleCommand|]. intros _. apply related_ret.
Qed.

Lemma related_emitLastBatch tmpl lines :
  related R (emitLastBatch args1 tmpl lines) (emitLastBatch args2 tmpl lines).
Proof.
  unfold emitLastBatch. destruct (0 <? length lines)%nat; [|apply related_ret].
  apply related_bind; [apply related_check|]. intros cmd. apply related_handleCommand.
Qed.

Lemma related_genLoop resep tmpl fuel rdr lines :
  related R (genLoop fuel args1 resep tmpl rdr lines)
            (genLoop fuel args2 resep tmpl rdr lines).
Proof.
  revert rdr lines. induction fuel as [|fuel IH]; intros rdr lines; [now intros w1 w2 H|].
  cbn [genLoop]. destruct (ReadString rdr nl) as [[line err] rdr'].
  destruct (readOk line err).
  - apply related_bind; [apply related_consumeLine|]. intros [lines1 buf1].
    apply related_bind; [apply related_emitFullBatch|]. intros [lines2 buf2]. apply IH.
  - destruct err as [[|msg]|]; [apply related_ret | apply related_halt | apply related_ret].
Qed.

Lemma related_genCommands tmpl env :
  related R (genCommands args1 tmpl env) (genCommands args2 tmpl env).
Proof.
  unfold genCommands. rewrite HSep, HN.
  apply related_bind.
  { destruct (isEmpty (Sep args2)); [apply related_ret|].
    destruct (Compile (Sep args2)); [apply related_ret | apply related_halt]. }
  intros resep. apply related_bind; [apply related_check|]. intros rdr.
  apply related_bind.
  { unfold makeslice.
    destruct ((Nlines args2 <? 0)%Z || (maxSliceCap <? Nlines args2)%Z);
      [apply related_halt|].
    destruct (allocated env (Nlines args2)); [apply related_ret | apply related_halt]. }
  intros _. apply related_bind; [apply related_genLoop|]. intros lines.
  apply related_bind; [apply related_emitLastBatch|]. intros _.
  apply related_effect. intros w1 w2 (H1 & H2 & H3 & H4 & H5 & H6 & HL & H7).
  unfold agree. cbn. auto 12.
Qed.

Lemma related_closeCancel : related R closeCancel closeCancel.
Proof.
  intros w1 w2 (H1 & H2 & H3 & H4 & H5 & H6 & HL & H7). unfold closeCancel. rewrite H5.
  destruct (cancel w2) eqn:E; (split; [reflexivity|]); unfold agree; cbn;
    repeat split; auto; congruence.
Qed.

Lemma related_defer {A} (d : M unit) (b1 b2 : M A) :
  related R d d -> related R b1 b2 -> related R (defer d b1) (defer d b2).
Proof.
  intros Hd Hb w1 w2 H. unfold defer. specialize (Hb w1 w2 H).
  destruct (b1 w1) as [a w1'|h w1'|], (b2 w2) as [b w2'|h' w2'|]; try easy.
  - destruct Hb as [<- H']. specialize (Hd w1' w2' H').
    destruct (d w1') as [[] w1''|h w1''|], (d w2') as [[] w2''|h' w2''|]; try easy;
      now destruct Hd.
  - destruct Hb as [<- H']. destruct h as [e|p|c| |]; try easy.
    specialize (Hd w1' w2' H').
    destruct (d w1') as [[] w1''|h w1''|], (d w2') as [[] w2''|h' w2''|]; try easy;
      now destruct Hd.
Qed.

Lemma related_resultBody p :
  related R (resultBody args1 p) (resultBody args2 p).
Proof.
  unfold resultBody. rewrite HCoe. apply related_bind.
  - destruct (negb (process.ExitCode p =? 0)%Z); [|apply related_ret].
    apply related_bind.
    { apply related_effect. intros w1 w2 (H1 & H2 & H3 & H4 & H5 & H6 & HL & H7).
      unfold agree. cbn. rewrite H4. auto 12. }
    intros _. destruct (negb (ContinueOnError args2)); [|apply related_ret].
    apply related_bind; [apply related_closeCancel|]. intros _. apply related_ret.
  - intros [|]; [|apply related_ret].
    apply related_bind; [|intros _; apply related_ret].
    apply related_effect. intros w1 w2 (H1 & H2 & H3 & H4 & H5 & H6 & HL & H7).
    unfold agree. cbn. rewrite H1, H6. auto 12.
Qed.

Lemma related_rangeResults results :
  related R (rangeResults args1 results) (rangeResults args2 results).
Proof.
  induction results as [|p rest IH]; [apply related_ret|].
  cbn [rangeResults]. apply related_bind; [apply related_resultBody|].
  intros [|]; [exact IH | apply related_ret].
Qed.

Lemma related_drain results :
  related R (drain args1 results) (drain args2 results).
Proof.
  unfold drain. apply related_bind.
  { apply related_effect. intros w1 w2 (H1 & H2 & H3 & H4 & H5 & H6 & HL & H7).
    unfold agree. cbn. auto 12. }
  intros _. apply related_defer.
  { apply related_effect. intros w1 w2 (H1 & H2 & H3 & H4 & H5 & H6 & HL & H7).
    unfold agree. cbn. rewrite H1, H6. auto 12. }
  apply related_bind.
  { apply related_effect. intros w1 w2 (H1 & H2 & H3 & H4 & H5 & H6 & HL & H7).
    unfold agree. cbn. auto 12. }
  intros _. apply related_defer; [apply related_closeCancel | apply related_rangeResults].
Qed.

Lemma related_main Runner env :
  related R (main Runner args1 env) (main Runner args2 env).
Proof.
  unfold main. rewrite HSep, HN.
  destruct (negb (isEmpty (Sep args2)) && (Nlines args2 >? 1)%Z); [apply related_halt|].
  destruct (negb (IsStdin env)).
  { apply related_bind; [|intros _; apply related_halt].
    apply related_effect. intros w1 w2 (H1 & H2 & H3 & H4 & H5 & H6 & HL & H7).
    unfold agree. cbn. repeat split; auto. intros Ha. now rewrite (H7 Ha). }
  apply related_bind.
  - unfold run. rewrite HCmd. apply related_bind.
    { unfold makeCommandTmpl.
      destruct (GoTemplate.Parse (rewritePattern (Command args2)));
        [apply related_ret|].
      destruct (GoTemplate.ParseError (rewritePattern (Command args2)));
        apply related_halt. }
    intros tmpl. apply related_bind; [apply related_genCommands|]. intros _.
    intros w1 w2 H. pose proof H as (_ & H2 & _). rewrite H2.
    now apply related_drain.
  - intros _ w1 w2 H. pose proof H as (_ & _ & _ & H4 & _). now rewrite H4.
Qed.

End Flags.

Section FlagEffects.
Context {RE : RegexpLib}.

Lemma agree_refl all w : agree all w w.
Proof. unfold agree. auto 12. Qed.

Lemma agree_all_eq w1 w2 : agree true w1 w2 -> w1 = w2.
Proof.
  destruct w1, w2. unfold agree. cbn. intros (H1 & H2 & H3 & H4 & H5 & H6 & HL & H7).
  specialize (H7 eq_refl). now subst.
Qed.

Lemma total_main Runner args env : total (main Runner args env).
Proof.
  intros w. unfold main.
  destruct (negb (isEmpty (Sep args)) && (Nlines args >? 1)%Z); [easy|].
  destruct (negb (IsStdin env)); [easy|].
  unfold bind at 1. unfold run, makeCommandTmpl, bind at 1.
  destruct (GoTemplate.Parse (rewritePattern (Command args))) as [tmpl|].
  2:{ now destruct (GoTemplate.ParseError (rewritePattern (Command args))). }
  cbn [ret]. unfold bind.
  pose proof (total_genCommands args tmpl env w) as Htot.
  destruct (genCommands args tmpl env w) as [[] w1|h w1|]; [|easy|easy].
  destruct (drain_end args (Runner (sent w1)) w1) as (w2 & E & _). rewrite E.
  now destruct (cancelled args (Runner (sent w1))).
Qed.

(** X14.  The verbose flag changes nothing but what is written to
    os.Stderr: with the flag set either way the program ends in the same
    way, with the same exit status, the same commands sent and the same
    bytes on os.Stdout. *)
Theorem verbose_changes_only_stderr
    (Runner : list str -> list process.Command) (args : Params) (b : bool)
    (env : Env) (w : World) :
  haltOf (main Runner (setVerbose b args) env w) = haltOf (main Runner args env w) /\
  exists w1 w2,
    endWorld (main Runner (setVerbose b args) env w) = Some w1 /\
    endWorld (main Runner args env w) = Some w2 /\
    osStdout w1 = osStdout w2 /\ sent w1 = sent w2 /\ ExitCode w1 = ExitCode w2 /\
    chClosed w1 = chClosed w2 /\ cancel w1 = cancel w2.
Proof.
  pose proof (related_main false (setVerbose b args) args eq_refl eq_refl eq_refl
                eq_refl eq_refl (fun H => False_ind _ (Bool.diff_false_true H))
                Runner env w w (agree_refl false w)) as H.
  pose proof (total_main Runner args env w) as T.
  destruct (main Runner (setVerbose b args) env w) as [[] w1|h w1|],
           (main Runner args env w) as [[] w2|h' w2|]; try easy.
  - destruct H as (_ & H1 & H2 & H3 & H4 & H5 & _). split; [reflexivity|].
    exists w1, w2. cbn. auto 12.
  - destruct H as (<- & H1 & H2 & H3 & H4 & H5 & _). split; [reflexivity|].
    exists w1, w2. cbn. auto 12.
Qed.

(** X15.  The flag [Ordered] is never consulted: set either way, the
    program does the same. *)
Theorem ordered_flag_changes_nothing
    (Runner : list str -> list process.Command) (args : Params) (b : bool)
    (env : Env) (w : World) :
  main Runner (setOrdered b args) env w = main Runner args env w.
Proof.
  pose proof (related_main true (setOrdered b args) args eq_refl eq_refl eq_refl
                eq_refl eq_refl (fun _ => eq_refl)
                Runner env w w (agree_refl true w)) as H.
  destruct (main Runner (setOrdered b args) env w) as [[] w1|h w1|],
           (main Runner args env w) as [[] w2|h' w2|]; try easy.
  - destruct H as [_ H]. now rewrite (agree_all_eq w1 w2 H).
  - destruct H as [<- H]. now rewrite (agree_all_eq w1 w2 H).
Qed.

End FlagEffects.

(** ** Failures before the first line is read *)
Section StartUp.
Context {RE : RegexpLib}.
Import GoStrings GoStringsReplace GoRegexp GoTemplate PatternSpec.

Local Notation "'pass1'" := (scanFrom (matchLiteral (bytes "{}")) (fun _ => linesRef)).
Local Notation "'pass2'" := (scanFrom matchIndex xsRef).

(** X17.  A batch size beyond what [make] accepts is not refused by
    [main] either: without a separator, once the pattern is compiled and
    the input is open, the generator panics when it makes the slice of the
    batch, before a byte of the input is read; the Go runtime ends the
    process with status 2. *)
Theorem oversized_batch_size_panics
    (Runner : list str -> list process.Command) (args : Params) (tmpl : Template)
    (env : Env) (rdr : Reader) (w : World) :
  (maxSliceCap < Nlines args)%Z ->
  isEmpty (Sep args) = true ->
  IsStdin env = true ->
  Parse (rewritePattern (Command args)) = Some tmpl ->
  Ropen env = Ok rdr ->
  reachesRun args env = true /\
  main Runner args env w = Halted (Panicked MakesliceCapOutOfRange) w /\
  exitStatus (Panicked MakesliceCapOutOfRange) = Some 2%Z.
Proof.
  intros Hn Hs Hi Hp Hin.
  assert (Hr : reachesRun args env = true).
  { unfold reachesRun. now rewrite Hs, Hi. }
  split; [exact Hr|]. split; [|reflexivity].
  apply (main_gen_halted Runner args env tmpl _ w w Hr Hp).
  unfold genCommands, makeslice. rewrite Hs, Hin.
  replace (maxSliceCap <? Nlines args)%Z with true by (symmetry; apply Z.ltb_lt; lia).
  now rewrite orb_true_r.
Qed.

(** X20.  A batch size that [make] accepts as a capacity but for which
    the runtime does not find the memory is not refused by [main] either:
    without a separator, once the pattern is compiled and the input is
    open, the runtime ends the process with its out-of-memory fatal error
    when the generator makes the slice of the batch, before a byte of the
    input is read; the status is 2. *)
Theorem batch_without_memory_is_fatal
    (Runner : list str -> list process.Command) (args : Params) (tmpl : Template)
    (env : Env) (rdr : Reader) (w : World) :
  (1 < Nlines args <= maxSliceCap)%Z ->
  Memory env (Nlines args) = false ->
  isEmpty (Sep args) = true ->
  IsStdin env = true ->
  Parse (rewritePattern (Command args)) = Some tmpl ->
  Ropen env = Ok rdr ->
  reachesRun args env = true /\
  sliceMade env (Nlines args) = false /\
  main Runner args env w = Halted OutOfMemory w /\
  exitStatus OutOfMemory = Some 2%Z.
Proof.
  intros [Hn1 Hn2] Hm Hs Hi Hp Hin.
  assert (Hr : reachesRun args env = true).
  { unfold reachesRun. now rewrite Hs, Hi. }
  assert (Ha : allocated env (Nlines args) = false).
  { unfold allocated. rewrite Hm.
    replace (Nlines args <=? 1)%Z with false by (symmetry; apply Z.leb_gt; lia).
    reflexivity. }
  split; [exact Hr|]. split; [|split; [|reflexivity]].
  { unfold sliceMade. rewrite Ha. apply andb_false_r. }
  apply (main_gen_halted Runner args env tmpl _ w w Hr Hp).
  unfold genCommands, makeslice. rewrite Hs, Hin, Ha.
  replace (Nlines args <? 0)%Z with false by (symmetry; apply Z.ltb_ge; lia).
  replace (maxSliceCap <? Nlines args)%Z with false by (symmetry; apply Z.ltb_ge; lia).
  reflexivity.
Qed.

Lemma pass1_plain s x : braceFree s = true -> pass1 (s ++ x) 0 = s ++ pass1 x 0.
Proof.
  induction s as [|c s IH]; [reflexivity|]. cbn [braceFree forallb]. intros H.
  apply andb_prop in H. destruct H as [Hc Hs]. apply negb_true_iff in Hc.
  cbn [app]. rewrite pass1_byte, (IH Hs); [reflexivity|].
  cbn [bytes list_ascii_of_string HasPrefix]. change "{"%char with lbrace.
  now rewrite (Ascii.eqb_sym lbrace c), Hc.
Qed.

Lemma pass2_plain s x : braceFree s = true -> pass2 (s ++ x) 0 = s ++ pass2 x 0.
Proof.
  induction s as [|c s IH]; [reflexivity|]. cbn [braceFree forallb]. intros H.
  apply andb_prop in H. destruct H as [Hc Hs]. apply negb_true_iff in Hc.
  cbn [app]. rewrite pass2_byte, (IH Hs); [reflexivity|].
  unfold matchIndex. now rewrite Hc.
Qed.

Lemma pushText_pushT c r : pushText c r = option_map (pushT c) r.
Proof. destruct r as [[|[s|a] l]|]; reflexivity. Qed.

Lemma firstRejected_pushT c items : firstRejected (pushT c items) = firstRejected items.
Proof. destruct items as [|[s|a] l]; reflexivity. Qed.

Lemma nodes_pushT c items : nodes items = None -> nodes (pushT c items) = None.
Proof.
  destruct items as [|[s|a] l]; cbn; [discriminate| |].
  - destruct (nodes l); [discriminate|reflexivity].
  - intros H. now rewrite H.
Qed.

Lemma lex_plain_end s :
  braceFree s = true -> exists items, lex InText s = Some items.
Proof.
  induction s as [|c s IH]; [now exists []|]. cbn [braceFree forallb]. intros H.
  apply andb_prop in H. destruct H as [Hc Hs]. apply negb_true_iff in Hc.
  destruct (IH Hs) as [items E].
  rewrite lex_byte, E by (intros ->; now rewrite Ascii.eqb_refl in Hc).
  rewrite pushText_pushT. now eexists.
Qed.

(** Text free of braces in front of an action changes neither the first
    rejected action nor whether the text parses. *)
Lemma lex_plain_front s y items :
  braceFree s = true ->
  lex InText y = Some items ->
  exists items',
    lex InText (s ++ y) = Some items' /\
    firstRejected items' = firstRejected items /\
    (nodes items = None -> nodes items' = None).
Proof.
  intros Hs E. induction s as [|c s IH]; [now exists items|].
  cbn [braceFree forallb] in Hs. apply andb_prop in Hs. destruct Hs as [Hc Hs].
  apply negb_true_iff in Hc. destruct (IH Hs) as (items' & E' & F & N).
  cbn [app]. rewrite lex_byte, E' by (intros ->; now rewrite Ascii.eqb_refl in Hc).
  rewrite pushText_pushT. exists (pushT c items'). split; [reflexivity|].
  split; [now rewrite firstRejected_pushT|]. intros H. now apply nodes_pushT, N.
Qed.

Lemma rejectedNumber_digits ds :
  rejectedNumber ds = true -> ds <> [] /\ forallb isDigit ds = true.
Proof.
  destruct ds as [|c rest]; [discriminate|]. unfold rejectedNumber.
  intros H. apply andb_prop in H. now destruct H.
Qed.

Lemma rejectedNumber_parseNumber ds :
  rejectedNumber ds = true -> parseNumber ds = None.
Proof.
  destruct ds as [|c rest]; [discriminate|]. unfold rejectedNumber, parseNumber, int64.
  intros H. apply andb_prop in H. destruct H as [Hd H]. rewrite Hd.
  destruct (Ascii.eqb c "0"%char).
  - destruct (forallb isOctDigit rest); [|reflexivity]. cbn [negb orb] in H.
    apply Z.leb_le in H.
    destruct (Z.ltb_spec (valueIn 8 rest) (2 ^ 63)) as [Hlt|_]; [|reflexivity].
    exfalso. assert (2 ^ 63 < 2 ^ 64)%Z by (now vm_compute). lia.
  - apply Z.leb_le in H.
    destruct (Z.ltb_spec (valueIn 10 (c :: rest)) (2 ^ 63)) as [Hlt|_]; [|reflexivity].
    exfalso. assert (2 ^ 63 < 2 ^ 64)%Z by (now vm_compute). lia.
Qed.

(** The rewritten text of a pattern with one placeholder between two
    texts free of braces. *)
Lemma rewritePattern_one_index pre ds post :
  braceFree pre = true -> braceFree post = true ->
  ds <> [] -> forallb isDigit ds = true ->
  rewritePattern (pre ++ lbrace :: ds ++ rbrace :: post) =
  pre ++ (bytes "{{index .Xs " ++ ds ++ bytes "}}") ++ post.
Proof.
  intros Hpre Hpost Hne Hds.
  unfold rewritePattern, Replace, ReplaceAllStringFunc_Index, replaceAll.
  rewrite (pass1_plain pre _ Hpre).
  rewrite pass1_byte by (now apply HasPrefix_token).
  rewrite (pass1_digits ds _ Hds).
  assert (Hr : braceFree (rbrace :: post) = true) by exact Hpost.
  rewrite <- (app_nil_r (rbrace :: post)) at 1.
  rewrite (pass1_plain (rbrace :: post) [] Hr). cbn [scanFrom]. rewrite app_nil_r.
  rewrite (pass2_plain pre _ Hpre), (pass2_token ds post Hne Hds).
  rewrite <- (app_nil_r post) at 1. rewrite (pass2_plain post [] Hpost).
  cbn [scanFrom]. now rewrite app_nil_r.
Qed.

(** X18.  A placeholder whose digits text/template does not accept as a
    number (a digit 8 or 9 after a leading 0, or an integer of 2^64 or
    more) makes the pattern fail to compile: for a pattern that holds such
    a placeholder between two texts free of braces, the program ends with
    log.Fatal, status 1, before the input is opened; nothing is read,
    sent or printed. *)
Theorem rejected_index_is_fatal
    (Runner : list str -> list process.Command) (args : Params) (env : Env)
    (pre ds post : str) (w : World) :
  reachesRun args env = true ->
  Command args = pre ++ lbrace :: ds ++ rbrace :: post ->
  braceFree pre = true ->
  braceFree post = true ->
  rejectedNumber ds = true ->
  makeCommandTmpl (Command args) w =
    Halted (LogFatal (BadNumber ds)) (logError (BadNumber ds) w) /\
  main Runner args env w =
    Halted (LogFatal (BadNumber ds)) (logError (BadNumber ds) w) /\
  exitStatus (LogFatal (BadNumber ds)) = Some 1%Z.
Proof.
  intros Hr Hcmd Hpre Hpost Hrej.
  destruct (rejectedNumber_digits ds Hrej) as [Hne Hds].
  pose proof (rejectedNumber_parseNumber ds Hrej) as Hpn.
  destruct (lex_plain_end post Hpost) as [ipost Epost].
  assert (Eact : lex InText ((bytes "{{index .Xs " ++ ds ++ bytes "}}") ++ post) =
                 Some (IAction (bytes "index .Xs " ++ ds) :: ipost)).
  { rewrite (lex_xsRef ds post Hne Hds), Epost. reflexivity. }
  destruct (lex_plain_front pre _ _ Hpre Eact)
    as (items & Elex & Hfirst & Hnodes).
  assert (Hpa : parseAction (bytes "index .Xs " ++ ds) = None).
  { unfold parseAction. cbn. unfold actionIndexXs. cbn. now rewrite Hpn. }
  assert (Hra : rejectedAction (bytes "index .Xs " ++ ds) = Some (BadNumber ds)).
  { unfold rejectedAction. cbn. unfold actionIndexXs. cbn. now rewrite Hrej. }
  assert (HP : Parse (rewritePattern (Command args)) = None).
  { rewrite Hcmd, rewritePattern_one_index by assumption. unfold Parse.
    rewrite Elex. apply Hnodes. cbn [nodes]. now rewrite Hpa. }
  assert (HE : ParseError (rewritePattern (Command args)) = Some (BadNumber ds)).
  { rewrite Hcmd, rewritePattern_one_index by assumption. unfold ParseError.
    rewrite Elex, Hfirst. cbn [firstRejected]. now rewrite Hpa. }
  split; [|split; [|reflexivity]].
  - unfold makeCommandTmpl. now rewrite HP, HE.
  - rewrite (main_not_compiled Runner args env w Hr HP), HE. reflexivity.
Qed.

(** X19.  [main] refuses a separator together with a batch size above
    one, and a run whose standard input is not connected, before the
    pattern is compiled and before the input is opened; the first check
    comes first.  Both refusals end the process with the status 255: the
    -1 that [p.Fail] passes to os.Exit shows as its low eight bits. *)
Theorem refusals_exit_with_255
    (Runner : list str -> list process.Command) (args : Params) (env : Env) (w : World) :
  reachesRun args env = false ->
  exists code w',
    main Runner args env w = Halted (OsExit code) w' /\
    exitStatus (OsExit code) = Some 255%Z /\
    code = (if negb (isEmpty (Sep args)) && (Nlines args >? 1)%Z then -1 else 255)%Z /\
    osStdout w' = osStdout w /\ sent w' = sent w /\ chClosed w' = chClosed w /\
    logged w' = logged w.
Proof.
  unfold reachesRun, main. intros H.
  destruct (negb (isEmpty (Sep args)) && (Nlines args >? 1)%Z).
  - exists (-1)%Z, w. cbn. auto 10.
  - cbn in H. rewrite H. cbn [negb]. eexists 255%Z, _. split; [reflexivity|].
    cbn. auto 10.
Qed.

End StartUp.

(** ** Runs that meet the hypotheses of the further properties *)
Section FurtherRuns.
Import Samples Cases Runs GoTemplate PatternSpec.
Existing Instance LiteralRegexp.lib.


Lemma results_after_the_first_failure_witness :
  (ContinueOnError (params "false") = false /\ process.ExitCode boom = 1%Z) /\
  drain (params "false") ([fine] ++ boom :: [fine; boom]) world0 =
  drain (params "false") ([fine] ++ [boom]) world0.
Proof.
  split; [split; reflexivity|].
  apply (results_after_the_first_failure_are_ignored (params "false") [fine] [fine; boom]
           boom world0); [reflexivity|discriminate].
Defined.

Lemma read_error_witness :
  (Ropen brokenEnv = Ok broken /\ final broken = ReadError (bytes "broken") /\
   sliceMade brokenEnv (Nlines (params "echo {}")) = true) /\
  inputLines broken = map stripEOL (terminated (pending broken)) /\
  genCommands (params "echo {}") echoLine brokenEnv world0 =
    bind (feed (params "echo {}") None echoLine (inputLines broken) [])
         (fun _ => halt (LogFatal (ReadFailed (bytes "broken")))) world0 /\
  (forall lines w1,
     feed (params "echo {}") None echoLine (inputLines broken) [] world0 = Ret lines w1 ->
     genCommands (params "echo {}") echoLine brokenEnv world0 =
       Halted (LogFatal (ReadFailed (bytes "broken")))
              (logError (ReadFailed (bytes "broken")) w1)) /\
  exists h w',
    genCommands (params "echo {}") echoLine brokenEnv world0 = Halted h w' /\
    chClosed w' = chClosed world0.
Proof.
  split; [repeat split|].
  apply (read_error_is_fatal (params "echo {}") echoLine brokenEnv broken None
           (bytes "broken") world0);
    reflexivity.
Defined.


Lemma batch_size_zero_witness :
  (isEmpty (Sep unbatched) = true /\ Nlines unbatched = 0%Z /\
   inputLines abcReader = [bytes "a"; bytes "b"; bytes "c"]) /\
  genCommands unbatched echoLine (input abc) world0 =
    bind (emitEach unbatched (renderBatch echoLine)
            (if isEmpty (inputLines abcReader) then [] else [inputLines abcReader]))
         (fun _ => effect closeCh) world0.
Proof.
  split; [repeat split|].
  apply (batch_size_zero_takes_all_lines unbatched echoLine (input abc) abcReader world0);
    reflexivity.
Defined.

Lemma separator_with_batch_size_zero_witness :
  (isEmpty (Sep splitUnbatched) = false /\ Nlines splitUnbatched = 0%Z /\
   Compile (RegexpLib := LiteralRegexp.lib) (Sep splitUnbatched) = Some (bytes ",") /\
   inputLines {| pending := csv; final := EOF |} = [bytes "a,b"; bytes "c,d"]) /\
  reachesRun splitUnbatched (input csv) = IsStdin (input csv) /\
  exists e,
    genCommands splitUnbatched echoFirst (input csv) world0 =
    bind (handleCommand splitUnbatched (bytes "echo a"))
         (fun _ => halt (LogFatal e)) world0.
Proof.
  split; [repeat split|].
  apply (separator_with_batch_size_zero_is_fatal (RE := LiteralRegexp.lib)
           splitUnbatched echoFirst (input csv)
           {| pending := csv; final := EOF |} (bytes ",") (bytes "a,b") [bytes "c,d"]
           (bytes "echo a") FXs 0 world0);
    [reflexivity|reflexivity|reflexivity|reflexivity|reflexivity|reflexivity|].
  right. left. reflexivity.
Defined.

Lemma dry_run_fills_witness :
  (DryRun (withDryRun (params "echo {}")) = true /\
   Command (withDryRun (params "echo {}")) = bytes "echo " ++ bytes "{}" ++ [] /\
   braceFree (bytes "echo ") = true /\ echoEngine 0 [] = []) /\
  exists w',
    main (echoEngine 0) (withDryRun (params "echo {}")) (input abc) world0 =
      Halted (OsExit 0) w' /\
    osStdout w' = printed (map (fun l => bytes "echo " ++ l ++ []) (inputLines abcReader)) /\
    sent w' = [] /\
    (bytes "echo " = [] -> @nil ascii = [] ->
     forall ls, pending abcReader = withNewlines ls ->
       Forall newlineFree ls -> Forall (fun l => chompCR l = l) ls ->
       osStdout w' = pending abcReader).
Proof.
  split; [repeat split|].
  apply (dry_run_fills_the_line_placeholder (echoEngine 0) (withDryRun (params "echo {}"))
           (input abc) abcReader (bytes "echo ") []); reflexivity.
Defined.


Lemma negative_batch_size_witness :
  (Nlines negative = (-1)%Z /\ IsStdin (input abc) = true /\
   Parse (rewritePattern (Command negative)) = Some echoLine) /\
  reachesRun negative (input abc) = true /\
  main (echoEngine 0) negative (input abc) world0 =
    Halted (Panicked MakesliceCapOutOfRange) world0.
Proof.
  split; [repeat split|].
  apply (negative_batch_size_panics (echoEngine 0) negative echoLine (input abc) None
           abcReader world0); [cbn; lia|reflexivity|reflexivity|reflexivity|reflexivity].
Defined.

Lemma oversized_batch_size_witness :
  ((maxSliceCap < Nlines oversized)%Z /\ isEmpty (Sep oversized) = true /\
   Parse (rewritePattern (Command oversized)) = Some echoLine) /\
  reachesRun oversized (input abc) = true /\
  main (echoEngine 0) oversized (input abc) world0 =
    Halted (Panicked MakesliceCapOutOfRange) world0 /\
  exitStatus (Panicked MakesliceCapOutOfRange) = Some 2%Z.
Proof.
  split; [repeat split|].
  apply (oversized_batch_size_panics (echoEngine 0) oversized echoLine (input abc)
           abcReader world0); reflexivity.
Defined.

Lemma batch_without_memory_witness :
  ((1 < Nlines large <= maxSliceCap)%Z /\ Memory scarce (Nlines large) = false /\
   isEmpty (Sep large) = true /\
   Parse (rewritePattern (Command large)) = Some echoLine) /\
  reachesRun large scarce = true /\
  sliceMade scarce (Nlines large) = false /\
  main (echoEngine 0) large scarce world0 = Halted OutOfMemory world0 /\
  exitStatus OutOfMemory = Some 2%Z.
Proof.
  assert (Hn : (1 < Nlines large <= maxSliceCap)%Z).
  { split; [reflexivity | vm_compute; discriminate]. }
  split; [repeat split; solve [reflexivity | apply Hn]|].
  apply (batch_without_memory_is_fatal (echoEngine 0) large echoLine scarce
           abcReader world0); solve [exact Hn | reflexivity].
Defined.

Lemma rejected_index_witness :
  (reachesRun (params "echo {08}") (input abc) = true /\
   Command (params "echo {08}") = bytes "echo " ++ lbrace :: bytes "08" ++ rbrace :: [] /\
   rejectedNumber (bytes "08") = true) /\
  makeCommandTmpl (Command (params "echo {08}")) world0 =
    Halted (LogFatal (BadNumber (bytes "08"))) (logError (BadNumber (bytes "08")) world0) /\
  main (echoEngine 0) (params "echo {08}") (input abc) world0 =
    Halted (LogFatal (BadNumber (bytes "08"))) (logError (BadNumber (bytes "08")) world0) /\
  exitStatus (LogFatal (BadNumber (bytes "08"))) = Some 1%Z.
Proof.
  split; [repeat split|].
  apply (rejected_index_is_fatal (echoEngine 0) (params "echo {08}") (input abc)
           (bytes "echo ") (bytes "08") [] world0); reflexivity.
Defined.

Lemma refusals_witness :
  reachesRun (withNlines 2 commas) (input abc) = false /\
  exists code w',
    main (echoEngine 0) (withNlines 2 commas) (input abc) world0 = Halted (OsExit code) w' /\
    exitStatus (OsExit code) = Some 255%Z /\
    code = (if negb (isEmpty (Sep (withNlines 2 commas))) &&
               (Nlines (withNlines 2 commas) >? 1)%Z then -1 else 255)%Z /\
    osStdout w' = osStdout world0 /\ sent w' = sent world0 /\
    chClosed w' = chClosed world0 /\ logged w' = logged world0.
Proof.
  split; [reflexivity|].
  apply (refusals_exit_with_255 (echoEngine 0) (withNlines 2 commas) (input abc) world0).
  reflexivity.
Defined.

End FurtherRuns.
